(** * The theme registry of ui-themeable (packages/ui-themeable/src/registry.js)

    A shallow embedding of the global theme registry: JavaScript values,
    the registry record, the module-level singleton with its optional mirror
    on [window], and every operation of the module as a computation in a
    small state-and-exception monad. *)

From Stdlib Require Import ZArith.
From stdpp Require Import gmap strings list fin_maps pretty.

Set Warnings "-register-all".
Set Default Proof Using "Type*".

(** ** JavaScript values *)

(** Theme variables, overrides and style objects are plain data: primitives
    and objects with string keys.  An object is a finite map; the order in
    which JavaScript enumerates the keys is not part of the model.  Numbers
    are integers. *)
Inductive value :=
| VUndefined
| VNull
| VBool (b : bool)
| VNum (n : Z)
| VStr (s : string)
| VObj (fields : gmap string value).

(** ToBoolean. *)
Definition truthy (v : value) : bool :=
  match v with
  | VUndefined | VNull => false
  | VBool b => b
  | VNum n => negb (n =? 0)%Z
  | VStr EmptyString => false
  | VStr (String _ _) => true
  | VObj _ => true
  end.

(** The indexed characters of a string primitive, which are its own
    enumerable properties. *)
Fixpoint chars (i : nat) (s : string) : gmap string value :=
  match s with
  | EmptyString => ∅
  | String c s' => <[pretty i := VStr (String c EmptyString)]> (chars (S i) s')
  end.

(** The own enumerable properties of a value: what [{...v}] copies and
    what [Object.keys(v)] lists. *)
Definition ownProps (v : value) : gmap string value :=
  match v with
  | VObj fields => fields
  | VStr s => chars 0 s
  | _ => ∅
  end.

Definition Object_keys (v : value) : list string := (map_to_list (ownProps v)).*1.

(** [{...a, ...b}]: the properties of [b] win. *)
Definition spread (a b : value) : value := VObj (ownProps b ∪ ownProps a).

(** [v || {}]. *)
Definition or_empty (v : value) : value := if truthy v then v else VObj ∅.

(** A default parameter [v = {}] replaces [undefined] only. *)
Definition default_empty (v : value) : value :=
  match v with VUndefined => VObj ∅ | _ => v end.

(** [overrides && Object.keys(overrides).length > 0]. *)
Definition has_keys (overrides : value) : bool :=
  truthy overrides && bool_decide (0 < length (Object_keys overrides)).

(** The outcome of a call: a returned value or a thrown one. *)
Inductive res (A : Type) :=
| Ok (a : A)
| Throw (e : value).
Arguments Ok {A} a.
Arguments Throw {A} e.

(** ** Keys *)

(** A property key of a components bucket.  Component keys are symbols
    ([Link.theme]); nothing stops a caller from using a string. *)
Inductive propkey :=
| KStr (s : string)
| KSym (id : nat).

#[global] Instance propkey_eq_dec : EqDecision propkey.
Proof. solve_decision. Defined.

#[global] Instance propkey_countable : Countable propkey :=
  inj_countable'
    (λ k, match k with KStr s => inl s | KSym id => inr id end)
    (λ x, match x with inl s => KStr s | inr id => KSym id end)
    (λ k, match k with KStr _ => eq_refl | KSym _ => eq_refl end).

Definition is_symbol (k : propkey) : bool :=
  match k with KSym _ => true | KStr _ => false end.

(** A theme key is a string; an optional argument that was left out is
    [None].  [k || other] on such a key. *)
Definition key_or (k : option string) (other : string) : string :=
  match k with
  | Some (String c s) => String c s
  | _ => other
  end.

Definition truthy_key (k : option string) : bool :=
  match k with Some (String _ _) => true | _ => false end.

(** The property name an optional key is converted to by [themes[k]]. *)
Definition propertyName (k : option string) : string := default "undefined" k.

Definition DEFAULT_THEME_KEY : string := "@@themeableDefaultTheme".

(** ** Component theme functions *)

Definition themeFunction : Type := value → res value.

(** An own enumerable property of a function object: another function (a
    per-theme specialization) or something else. *)
Inductive fnProperty :=
| PFunction (f : themeFunction)
| PValue (v : value).

(** A function object: what calling it does, and its own properties. *)
Record FunctionObject := {
  call : themeFunction;
  properties : gmap string fnProperty
}.

(** The second argument of [registerComponentTheme]. *)
Inductive argument :=
| AFunction (f : FunctionObject)
| ANotFunction (v : value).

(** ** Themes and the registry *)

Module Theme.
(** [{ key, variables, immutable }]; a field that is absent reads as
    [undefined]. *)
Record t := {
  key : option string;
  variables : value;
  immutable : value
}.

(** [{}] *)
Definition empty : t :=
  {| key := None; variables := VUndefined; immutable := VUndefined |}.

(** [{ ...theme, immutable }] *)
Definition with_immutable (theme : option t) (imm : value) : t :=
  match theme with
  | Some th => {| key := key th; variables := variables th; immutable := imm |}
  | None => {| key := None; variables := VUndefined; immutable := imm |}
  end.
End Theme.

Module Registry.
Record t := {
  defaultThemeKey : option string;
  components : gmap string (gmap propkey FunctionObject);
  themes : gmap string Theme.t;
  registered : list string;
  overrides : value
}.
End Registry.

(** [makeRegistry]: [overrides] is not among the keys, so it reads as
    [undefined]. *)
Definition makeRegistry : Registry.t :=
  {| Registry.defaultThemeKey := None;
     Registry.components := {[ DEFAULT_THEME_KEY := ∅ ]};
     Registry.themes := ∅;
     Registry.registered := [];
     Registry.overrides := VUndefined |}.

(** ** Diagnostics *)

(** What the warning channel and the console receive. *)
Inductive diag :=
| InvalidRegistry
| ThemeNotFound (themeKey : option string)
| ThemeImmutable (themeKey : option string) (overrides : value)
| ComponentImmutable (t : string) (componentKey : propkey) (overrides : value)
| NoThemesRegistered
| ConsoleError (e : value).

(** ** The world *)

(** [window.GLOBAL_THEME_REGISTRY]: unset, the very object the module
    variable holds, or an object another copy of the module put there. *)
Inductive windowSlot :=
| SlotUnset
| SlotSameObject
| SlotOtherObject (r : Registry.t).

Record World := {
  GLOBAL_THEME_REGISTRY : Registry.t;
  window_GLOBAL_THEME_REGISTRY : windowSlot;
  uid_calls : nat;
  diagnostics : list diag
}.

Definition set_local (r : Registry.t) (w : World) : World :=
  {| GLOBAL_THEME_REGISTRY := r;
     window_GLOBAL_THEME_REGISTRY := window_GLOBAL_THEME_REGISTRY w;
     uid_calls := uid_calls w;
     diagnostics := diagnostics w |}.

Definition set_window (s : windowSlot) (w : World) : World :=
  {| GLOBAL_THEME_REGISTRY := GLOBAL_THEME_REGISTRY w;
     window_GLOBAL_THEME_REGISTRY := s;
     uid_calls := uid_calls w;
     diagnostics := diagnostics w |}.

Definition emit (d : diag) (w : World) : World :=
  {| GLOBAL_THEME_REGISTRY := GLOBAL_THEME_REGISTRY w;
     window_GLOBAL_THEME_REGISTRY := window_GLOBAL_THEME_REGISTRY w;
     uid_calls := uid_calls w;
     diagnostics := diagnostics w ++ [d] |}.

Definition bump_uid (w : World) : World :=
  {| GLOBAL_THEME_REGISTRY := GLOBAL_THEME_REGISTRY w;
     window_GLOBAL_THEME_REGISTRY := window_GLOBAL_THEME_REGISTRY w;
     uid_calls := S (uid_calls w);
     diagnostics := diagnostics w |}.

(** A world in which nothing has happened yet. *)
Definition initialWorld : World :=
  {| GLOBAL_THEME_REGISTRY := makeRegistry;
     window_GLOBAL_THEME_REGISTRY := SlotUnset;
     uid_calls := 0;
     diagnostics := [] |}.

(** ** The monad of the module's operations *)

Definition M (A : Type) : Type := World → res A * World.

Definition ret {A} (a : A) : M A := λ w, (Ok a, w).

Definition throw {A} (e : value) : M A := λ w, (Throw e, w).

Definition bind {A B} (m : M A) (k : A → M B) : M B :=
  λ w, match m w with
       | (Ok a, w') => k a w'
       | (Throw e, w') => (Throw e, w')
       end.

Notation "'let!' x ':=' m 'in' k" := (bind m (λ x, k))
  (at level 10, x name, m at level 100, k at level 200).
Notation "m '>>>' k" := (bind m (λ _, k))
  (at level 90, right associativity).

Definition TypeError : value := VStr "TypeError".

(** What a computation returns in a world, when it returns. *)
Definition eval {A} (m : M A) (w : World) : option A :=
  match m w with
  | (Ok a, _) => Some a
  | (Throw _, _) => None
  end.

(** The world a computation leaves behind. *)
Definition exec {A} (m : M A) (w : World) : World := (m w).2.

(** ** What the module imports *)

(** [canUseDOM], [mergeDeep] and [uid] come from ui-utils, and
    [process.env.NODE_ENV] from the host; the registry is written against
    them.  [uid n] is the identifier the [n]-th call of [uid()] returns. *)
Class Env := {
  canUseDOM : bool;
  production : bool;
  mergeDeep : value → value → value;
  uid : nat → string
}.

(** Modelled from the spec: [warning] of ui-utils is missing; it is the
    non-fatal warning channel, which receives the message when the
    condition does not hold and never throws. *)
Definition warning (condition : bool) (message : diag) : M unit :=
  λ w, (Ok tt, if condition then w else emit message w).

(** Modelled from the spec: [mergeDeep] of ui-utils is missing.  Override
    values take precedence at every nesting level: where both sides hold
    an object under a key the two are merged recursively, otherwise the
    value of the source replaces the one of the target; keys of the
    target alone are preserved.  An argument that is not a mapping
    contributes no keys, and the result is always a mapping.  [mergeKey]
    decides one key. *)
Definition mergeKey (target : option value)
    (source : option (value * (value → value))) : option value :=
  match source with
  | None => target
  | Some (sv, merge_into) =>
      match target, sv with
      | Some (VObj t), VObj _ => Some (merge_into (VObj t))
      | _, _ => Some sv
      end
  end.

(** Modelled from the spec: the recursive merge behind [mergeDeep], one
    source into a target, as described above. *)
Fixpoint mergeSourceIntoTarget (source target : value) {struct source} : value :=
  match source with
  | VObj sfields =>
      let tfields := match target with VObj t => t | _ => ∅ end in
      VObj (merge mergeKey tfields ((λ sv, (sv, mergeSourceIntoTarget sv)) <$> sfields))
  | _ => match target with VObj t => VObj t | _ => VObj ∅ end
  end.

(** Modelled from the spec: [mergeDeep(target, source)], the deep merge of
    the two arguments, in order, into a new mapping. *)
Definition mergeDeep_spec (target source : value) : value :=
  mergeSourceIntoTarget source (mergeSourceIntoTarget target (VObj ∅)).

(** Modelled from the spec: [uid] of ui-utils is missing; it generates a
    fresh unique identifier on each call, here the running number of the
    call behind a fixed prefix. *)
Definition uid_spec (n : nat) : string := "uid_" +:+ pretty n.

Definition specEnv (dom prod : bool) : Env :=
  {| canUseDOM := dom; production := prod;
     mergeDeep := mergeDeep_spec; uid := uid_spec |}.

(** ** The operations of registry.js *)

Section registry.
Context `{env : Env}.

(** Every key [makeRegistry] has is a field of the record, and
    [defaultThemeKey] is [null] at worst, never [undefined]: the check
    finds nothing missing. *)
Definition validateRegistry (registry : Registry.t) : M Registry.t :=
  let valid := true in
  warning valid InvalidRegistry >>>
  ret registry.

Definition getRegistry : M Registry.t :=
  λ w,
    if negb canUseDOM then (Ok (GLOBAL_THEME_REGISTRY w), w)
    else match window_GLOBAL_THEME_REGISTRY w with
         | SlotUnset =>
             validateRegistry (GLOBAL_THEME_REGISTRY w) (set_window SlotSameObject w)
         | SlotSameObject => validateRegistry (GLOBAL_THEME_REGISTRY w) w
         | SlotOtherObject r => validateRegistry r w
         end.

(** An assignment to a property of the object [getRegistry] returned:
    the object of the module variable, unless [window] holds another
    one. *)
Definition mutateRegistry (f : Registry.t → Registry.t) : M unit :=
  λ w,
    if negb canUseDOM then (Ok tt, set_local (f (GLOBAL_THEME_REGISTRY w)) w)
    else match window_GLOBAL_THEME_REGISTRY w with
         | SlotOtherObject r => (Ok tt, set_window (SlotOtherObject (f r)) w)
         | _ => (Ok tt, set_local (f (GLOBAL_THEME_REGISTRY w)) w)
         end.

Definition setRegistry (registry : Registry.t) : M unit :=
  λ w,
    let w' := set_local registry w in
    (Ok tt, if canUseDOM then set_window SlotSameObject w' else w').

Definition clearRegistry : M unit := setRegistry makeRegistry.

Definition getDefaultThemeKey : M string :=
  let! registry := getRegistry in
  ret (key_or (Registry.defaultThemeKey registry)
         (key_or (head (Registry.registered registry)) DEFAULT_THEME_KEY)).

Definition setDefaultTheme (themeKey : string) (overrides immutable : value)
    : M Theme.t :=
  let! registry := getRegistry in
  let theme := Registry.themes registry !! themeKey in
  warning (bool_decide (is_Some theme)) (ThemeNotFound (Some themeKey)) >>>
  let theme := Theme.with_immutable theme immutable in
  mutateRegistry (λ r,
    {| Registry.defaultThemeKey := Some themeKey;
       Registry.components := Registry.components r;
       Registry.themes := <[themeKey := theme]> (Registry.themes r);
       Registry.registered := Registry.registered r;
       Registry.overrides := overrides |}) >>>
  ret theme.

(** A call of [uid()]. *)
Definition uid_call : M string := λ w, (Ok (uid (uid_calls w)), bump_uid w).

Definition registerTheme (theme : Theme.t) : M unit :=
  let! registry := getRegistry in
  let! key := (if truthy_key (Theme.key theme)
               then ret (propertyName (Theme.key theme))
               else uid_call) in
  mutateRegistry (λ r,
    {| Registry.defaultThemeKey := Registry.defaultThemeKey r;
       Registry.components := Registry.components r;
       Registry.themes := <[key := theme]> (Registry.themes r);
       Registry.registered := Registry.registered r ++ [key];
       Registry.overrides := Registry.overrides r |}).

Definition getRegisteredTheme (themeKey : option string)
    (defaultTheme : option Theme.t) : M (option Theme.t) :=
  let! registry := getRegistry in
  let theme := Registry.themes registry !! propertyName themeKey in
  (match defaultTheme with
   | Some _ => ret tt
   | None => warning (bool_decide (is_Some theme)) (ThemeNotFound themeKey)
   end) >>>
  ret (match theme with Some th => Some th | None => defaultTheme end).

(** Reading a property of what [getRegisteredTheme] returned, which
    throws on [undefined]. *)
Definition toObject (theme : option Theme.t) : M Theme.t :=
  match theme with
  | Some th => ret th
  | None => throw TypeError
  end.

Definition overrideThemeVariables (themeKey : option string) (overrides : value)
    : M value :=
  let! theme := getRegisteredTheme themeKey (Some Theme.empty) in
  let! theme := toObject theme in
  if has_keys overrides && truthy (Theme.immutable theme) then
    warning false (ThemeImmutable themeKey overrides) >>>
    ret (Theme.variables theme)
  else
    ret (mergeDeep (Theme.variables theme) overrides).

Definition mergeWithDefaultThemeVariables (themeKey : option string)
    (overrides : value) : M value :=
  let overrides := default_empty overrides in
  let! registry := getRegistry in
  let defaultOverrides := or_empty (Registry.overrides registry) in
  let! defaultThemeKey := getDefaultThemeKey in
  if truthy_key themeKey then
    let! variables := overrideThemeVariables themeKey overrides in
    overrideThemeVariables (Some defaultThemeKey) variables
  else
    overrideThemeVariables (Some defaultThemeKey)
      (mergeDeep defaultOverrides overrides).

Definition makeComponentTheme (componentThemeFunction : FunctionObject)
    (themeKey : string) : FunctionObject :=
  {| call := λ variables,
       match call componentThemeFunction variables with
       | Throw e => Throw e
       | Ok theme =>
           match properties componentThemeFunction !! themeKey with
           | Some (PFunction specialization) =>
               match specialization variables with
               | Throw e => Throw e
               | Ok theme' => Ok (spread theme theme')
               end
           | _ => Ok theme
           end
       end;
     properties := ∅ |}.

(** One round of the [forEach] of [registerComponentTheme], on the
    [components] of the registry. *)
Definition registerForTheme (componentKey : propkey)
    (componentThemeFunction : FunctionObject)
    (components : gmap string (gmap propkey FunctionObject))
    (themeKey : string) : gmap string (gmap propkey FunctionObject) :=
  let components :=
    match components !! themeKey with
    | Some _ => components
    | None => <[themeKey := ∅]> components
    end in
  <[themeKey :=
      <[componentKey := makeComponentTheme componentThemeFunction themeKey]>
        (default ∅ (components !! themeKey))]> components.

Definition set_components (f : gmap string (gmap propkey FunctionObject) →
                               gmap string (gmap propkey FunctionObject))
    (r : Registry.t) : Registry.t :=
  {| Registry.defaultThemeKey := Registry.defaultThemeKey r;
     Registry.components := f (Registry.components r);
     Registry.themes := Registry.themes r;
     Registry.registered := Registry.registered r;
     Registry.overrides := Registry.overrides r |}.

Definition registerComponentTheme (componentKey : propkey)
    (componentThemeFunction : argument) : M unit :=
  let! registry := getRegistry in
  match componentThemeFunction with
  | ANotFunction _ => ret tt
  | AFunction fn =>
      match Registry.components registry !! DEFAULT_THEME_KEY with
      | None => throw TypeError
      | Some bucket =>
          mutateRegistry (set_components
            (insert DEFAULT_THEME_KEY (<[componentKey := fn]> bucket))) >>>
          mutateRegistry (set_components (λ components,
            foldl (registerForTheme componentKey fn) components
              (map_to_list (properties fn)).*1))
      end
  end.

Definition getRegisteredComponents (themeKey : option string)
    : M (gmap propkey FunctionObject) :=
  let! registry := getRegistry in
  let! t := (if truthy_key themeKey then ret (propertyName themeKey)
             else getDefaultThemeKey) in
  ret (default ∅ (Registry.components registry !! t)
       ∪ default ∅ (Registry.components registry !! DEFAULT_THEME_KEY)).

(** The [forEach] of [generateTheme] over the symbol keys. *)
Fixpoint generateEach (entries : list (propkey * FunctionObject))
    (variables : value) (theme : gmap propkey value) : res (gmap propkey value) :=
  match entries with
  | [] => Ok theme
  | (componentKey, fn) :: entries =>
      match call fn variables with
      | Throw e => Throw e
      | Ok style => generateEach entries variables (<[componentKey := style]> theme)
      end
  end.

Definition getOwnPropertySymbols {A} (o : gmap propkey A) : list (propkey * A) :=
  filter (λ kv, is_symbol kv.1 = true) (map_to_list o).

Definition generateTheme (themeKey : option string) (overrides : value)
    : M (gmap propkey value) :=
  let! registry := getRegistry in
  warning (bool_decide (0 < length (Registry.registered registry)))
    NoThemesRegistered >>>
  let! components := getRegisteredComponents themeKey in
  let! variables := mergeWithDefaultThemeVariables themeKey overrides in
  λ w, (generateEach (getOwnPropertySymbols components) variables ∅, w).

Definition getTheme (themeKey : option string) : M value :=
  let! theme := getRegisteredTheme themeKey (Some Theme.empty) in
  let! theme := toObject theme in
  ret (or_empty (Theme.variables theme)).

Definition console_error (e : value) : M unit :=
  λ w, (Ok tt, if production then w else emit (ConsoleError e) w).

Definition generateComponentTheme (componentKey : propkey)
    (themeKey : option string) (overrides : value) : M value :=
  let! variables := mergeWithDefaultThemeVariables themeKey VUndefined in
  let! t := (if truthy_key themeKey then ret (propertyName themeKey)
             else getDefaultThemeKey) in
  let! components := getRegisteredComponents (Some t) in
  let componentThemeFunction := components !! componentKey in
  let! componentTheme :=
    (match componentThemeFunction with
     | Some fn =>
         match call fn variables with
         | Ok style => ret style
         | Throw e => console_error e >>> ret (VObj ∅)
         end
     | None => ret (VObj ∅)
     end) in
  let! theme := getRegisteredTheme (Some t) (Some Theme.empty) in
  let! theme := toObject theme in
  if has_keys overrides && truthy (Theme.immutable theme) then
    warning false (ComponentImmutable t componentKey overrides) >>>
    ret componentTheme
  else
    ret (spread componentTheme (or_empty overrides)).

Definition getRegisteredThemes : M (gmap string Theme.t) :=
  let! registry := getRegistry in
  ret (Registry.themes registry).

(** The registry object [getRegistry] hands out in a world. *)
Definition liveRegistry (w : World) : Registry.t :=
  if negb canUseDOM then GLOBAL_THEME_REGISTRY w
  else match window_GLOBAL_THEME_REGISTRY w with
       | SlotOtherObject r => r
       | _ => GLOBAL_THEME_REGISTRY w
       end.
End registry.

(** ** What the reading operations compute

    The operations below [getRegistry] that only read the registry are
    functions of the live registry object; these are their values and the
    diagnostics they emit, used to state and prove the lemmas about the
    monadic code. *)

Section views.
Context `{env : Env}.

Definition defaultKey (r : Registry.t) : string :=
  key_or (Registry.defaultThemeKey r)
    (key_or (head (Registry.registered r)) DEFAULT_THEME_KEY).

(** The key [themeKey || getDefaultThemeKey()]. *)
Definition effectiveKey (r : Registry.t) (themeKey : option string) : string :=
  key_or themeKey (defaultKey r).

(** [getRegisteredTheme(themeKey, {})]. *)
Definition themeAt (r : Registry.t) (themeKey : option string) : Theme.t :=
  default Theme.empty (Registry.themes r !! propertyName themeKey).

Definition blocked (r : Registry.t) (themeKey : option string) (overrides : value)
    : bool :=
  has_keys overrides && truthy (Theme.immutable (themeAt r themeKey)).

Definition overridden (r : Registry.t) (themeKey : option string)
    (overrides : value) : value :=
  if blocked r themeKey overrides
  then Theme.variables (themeAt r themeKey)
  else mergeDeep (Theme.variables (themeAt r themeKey)) overrides.

Definition overridden_log (r : Registry.t) (themeKey : option string)
    (overrides : value) : list diag :=
  if blocked r themeKey overrides
  then [ThemeImmutable themeKey overrides] else [].

(** The overrides the default theme receives in the second stage. *)
Definition stage1 (r : Registry.t) (themeKey : option string) (overrides : value)
    : value :=
  if truthy_key themeKey
  then overridden r themeKey (default_empty overrides)
  else mergeDeep (or_empty (Registry.overrides r)) (default_empty overrides).

Definition resolved (r : Registry.t) (themeKey : option string)
    (overrides : value) : value :=
  overridden r (Some (defaultKey r)) (stage1 r themeKey overrides).

Definition resolved_log (r : Registry.t) (themeKey : option string)
    (overrides : value) : list diag :=
  (if truthy_key themeKey
   then overridden_log r themeKey (default_empty overrides) else [])
  ++ overridden_log r (Some (defaultKey r)) (stage1 r themeKey overrides).

(** [{ ...components[DEFAULT_THEME_KEY], ...components[t] }]. *)
Definition bucket (r : Registry.t) (themeKey : option string)
    : gmap propkey FunctionObject :=
  default ∅ (Registry.components r !! effectiveKey r themeKey)
  ∪ default ∅ (Registry.components r !! DEFAULT_THEME_KEY).

(** The style object [generateComponentTheme] obtains from the
    component's function: [{}] without a function or when it throws. *)
Definition componentStyle (fn : option FunctionObject) (variables : value)
    : value :=
  match fn with
  | Some fn => match call fn variables with Ok style => style | Throw _ => VObj ∅ end
  | None => VObj ∅
  end.

Definition componentStyle_log (fn : option FunctionObject) (variables : value)
    : list diag :=
  match fn with
  | Some fn =>
      match call fn variables with
      | Ok _ => []
      | Throw e => if production then [] else [ConsoleError e]
      end
  | None => []
  end.

(** A computation that leaves the registry and the [uid] counter as
    they are: its outcome and the diagnostics it adds are functions of
    the live registry. *)
Definition reads {A} (m : M A) (outcome : Registry.t → res A)
    (log : Registry.t → list diag) : Prop :=
  ∀ w, ∃ w',
    m w = (outcome (liveRegistry w), w')
    ∧ liveRegistry w' = liveRegistry w
    ∧ uid_calls w' = uid_calls w
    ∧ diagnostics w' = diagnostics w ++ log (liveRegistry w).
End views.

(** ** Sequences of calls *)

(** The calls a client of the module can make. *)
Inductive operation :=
| RegisterTheme (theme : Theme.t)
| SetDefaultTheme (themeKey : string) (overrides immutable : value)
| RegisterComponentTheme (componentKey : propkey) (fn : argument)
| SetRegistry (registry : Registry.t)
| ClearRegistry
| GenerateTheme (themeKey : option string) (overrides : value)
| GenerateComponentTheme (componentKey : propkey) (themeKey : option string)
    (overrides : value)
| GetTheme (themeKey : option string).

Section calls.
Context `{env : Env}.

Definition perform (op : operation) : M unit :=
  match op with
  | RegisterTheme theme => registerTheme theme
  | SetDefaultTheme themeKey overrides immutable =>
      setDefaultTheme themeKey overrides immutable >>> ret tt
  | RegisterComponentTheme componentKey fn => registerComponentTheme componentKey fn
  | SetRegistry registry => setRegistry registry
  | ClearRegistry => clearRegistry
  | GenerateTheme themeKey overrides => generateTheme themeKey overrides >>> ret tt
  | GenerateComponentTheme componentKey themeKey overrides =>
      generateComponentTheme componentKey themeKey overrides >>> ret tt
  | GetTheme themeKey => getTheme themeKey >>> ret tt
  end.

(** The world after a sequence of calls; a call that throws leaves the
    world it reached. *)
Definition run (ops : list operation) (w : World) : World :=
  foldl (λ w op, exec (perform op) w) w ops.

(** The keys the [registerTheme] calls of a sequence file their themes
    under, in call order, from the last replacement of the registry on.
    [n] counts the calls of [uid] so far. *)
Fixpoint registrations (ops : list operation) (n : nat) (keys : list string)
    : list string :=
  match ops with
  | [] => keys
  | RegisterTheme theme :: ops =>
      if truthy_key (Theme.key theme)
      then registrations ops n (keys ++ [propertyName (Theme.key theme)])
      else registrations ops (S n) (keys ++ [uid n])
  | SetRegistry registry :: ops => registrations ops n (Registry.registered registry)
  | ClearRegistry :: ops => registrations ops n []
  | _ :: ops => registrations ops n keys
  end.
End calls.

(** ** Sample data *)

Definition blue : value := VObj {[ "color" := VStr "blue" ]}.
Definition red : value := VObj {[ "color" := VStr "red" ]}.
Definition green : value := VObj {[ "color" := VStr "green" ]}.

Definition baseTheme : Theme.t :=
  {| Theme.key := Some "base"; Theme.variables := blue;
     Theme.immutable := VBool false |}.

Definition strictTheme : Theme.t :=
  {| Theme.key := Some "strict"; Theme.variables := red;
     Theme.immutable := VBool true |}.

(** A theme without a key. *)
Definition keylessTheme : Theme.t :=
  {| Theme.key := None; Theme.variables := blue; Theme.immutable := VUndefined |}.

(** Register [base] and [strict], then make [base] the default. *)
Definition scenario `{env : Env} : M unit :=
  registerTheme baseTheme >>>
  registerTheme strictTheme >>>
  setDefaultTheme "base" (VObj ∅) (VBool false) >>>
  ret tt.

(** A style function that hands back its variables, one that throws, and
    one with a specialization for the theme ['brand']. *)
Definition echoFn : FunctionObject :=
  {| call := λ variables, Ok variables; properties := ∅ |}.

Definition throwingFn : FunctionObject :=
  {| call := λ _, Throw (VStr "boom"); properties := ∅ |}.


(** The module loaded outside a browser, not in production. *)
Definition nodeEnv : Env := specEnv false false.

(** The world after the scenario, one with a throwing function under a
    symbol, and one with a function under a string key. *)
Definition scenarioWorld : World := exec (scenario (env := nodeEnv)) initialWorld.

Definition throwingWorld : World :=
  exec (registerComponentTheme (env := nodeEnv) (KSym 0) (AFunction throwingFn))
    initialWorld.

Definition stringKeyWorld : World :=
  exec (registerComponentTheme (env := nodeEnv) (KStr "Button") (AFunction echoFn))
    initialWorld.

(** ** Inherited properties *)

(** The registry's mappings are object literals, so a string key that no
    own property answers is still looked up on [Object.prototype].  The
    finite maps above hold the own properties; these are the names that
    [Object.prototype] answers (ECMAScript, with Annex B).  The theorems
    that depend on a lookup finding nothing, or on the [hasOwnProperty]
    method being reached, say so with these: a component key that is a
    symbol is never inherited, a string key must not be one of the names. *)
Definition objectPrototypeMembers : list string :=
  [ "constructor"; "hasOwnProperty"; "isPrototypeOf"; "propertyIsEnumerable";
    "toLocaleString"; "toString"; "valueOf"; "__proto__";
    "__defineGetter__"; "__defineSetter__"; "__lookupGetter__"; "__lookupSetter__" ].

Definition inherited (name : string) : bool :=
  bool_decide (name ∈ objectPrototypeMembers).

(** ** makeTheme *)

Section make_theme.
Context `{env : Env}.

(** The [use] method of the object [makeTheme({ theme, a11y })] returns.
    The method closes over the two themes and reads nothing of them but
    their keys; here both themes are supplied and carry a string key, so
    the two diagnostics of [use] (no accessible theme, invalid theme) have
    their conditions met.  [accessible] and [overrides] are the fields of
    the options object, [undefined] when left out. *)
Definition use (themeKey a11yKey : string) (accessible overrides : value) : M unit :=
  if truthy accessible then
    setDefaultTheme a11yKey VNull (VBool true) >>> ret tt
  else
    setDefaultTheme themeKey overrides (VBool false) >>> ret tt.
End make_theme.

(** ** More sample data *)




(** A style function with a property that is not a function. *)
Definition taggedFn : FunctionObject :=
  {| call := λ _, Ok (VObj {[ "size" := VNum 1 ]});
     properties := {[ "version" := PValue (VNum 2) ]} |}.

(** The world in which [echoFn] is registered under a symbol. *)
Definition echoWorld : World :=
  exec (registerComponentTheme (env := nodeEnv) (KSym 0) (AFunction echoFn))
    initialWorld.

(** A registry a caller made without the default bucket, installed with
    [setRegistry]. *)
Definition bareRegistry : Registry.t :=
  {| Registry.defaultThemeKey := None;
     Registry.components := ∅;
     Registry.themes := ∅;
     Registry.registered := [];
     Registry.overrides := VUndefined |}.

Definition bareWorld : World :=
  exec (setRegistry (env := nodeEnv) bareRegistry) initialWorld.

(** The world of the scenario with [echoFn] registered under a symbol. *)
Definition echoScenarioWorld : World :=
  exec (registerComponentTheme (env := nodeEnv) (KSym 0) (AFunction echoFn))
    scenarioWorld.

(** The world in which [base] alone is registered. *)
Definition baseWorld : World :=
  exec (registerTheme (env := nodeEnv) baseTheme) initialWorld.

(** The world of the scenario with [strict], immutable, made the default
    instead. *)
Definition strictDefaultWorld : World :=
  exec (setDefaultTheme (env := nodeEnv) "strict" (VObj ∅) (VBool true))
    scenarioWorld.

(** * Properties *)

Section reading.
Context `{env : Env}.

Lemma reads_ext {A} (m : M A) f l f' l' :
  reads m f l → (∀ r, f r = f' r) → (∀ r, l r = l' r) → reads m f' l'.
Proof.
  intros H Hf Hl w. destruct (H w) as (w' & E & ?). exists w'.
  rewrite <- Hf, <- Hl. done.
Qed.

Lemma reads_ret {A} (a : A) : reads (ret a) (λ _, Ok a) (λ _, []).
Proof. intros w. exists w. rewrite app_nil_r. done. Qed.

Lemma reads_throw {A} (e : value) : reads (@throw A e) (λ _, Throw e) (λ _, []).
Proof. intros w. exists w. rewrite app_nil_r. done. Qed.

Lemma reads_bind {A B} (m : M A) (k : A → M B) f l g l2 :
  reads m f l → (∀ a, reads (k a) (g a) (l2 a)) →
  reads (bind m k)
    (λ r, match f r with Ok a => g a r | Throw e => Throw e end)
    (λ r, match f r with Ok a => l r ++ l2 a r | Throw _ => l r end).
Proof.
  intros Hm Hk w. destruct (Hm w) as (w1 & E1 & R1 & U1 & D1).
  unfold bind. rewrite E1. destruct (f (liveRegistry w)) as [a|e].
  - destruct (Hk a w1) as (w2 & E2 & R2 & U2 & D2). exists w2.
    rewrite E2, R2, U2, D2, R1, U1, D1, app_assoc. done.
  - exists w1. done.
Qed.

Lemma reads_warning (c : bool) (d : diag) :
  reads (warning c d) (λ _, Ok tt) (λ _, if c then [] else [d]).
Proof.
  intros w. unfold warning. destruct c.
  - exists w. rewrite app_nil_r. done.
  - exists (emit d w). unfold liveRegistry. destruct w; done.
Qed.

Lemma reads_getRegistry : reads getRegistry (λ r, Ok r) (λ _, []).
Proof.
  intros [g s n ds]. unfold getRegistry, liveRegistry, validateRegistry, bind,
    warning, ret. cbn. rewrite app_nil_r.
  destruct canUseDOM; cbn; [|eauto]. destruct s; cbn; eauto.
Qed.

Lemma reads_if {A} (b : bool) (m1 m2 : M A) f1 l1 f2 l2 :
  reads m1 f1 l1 → reads m2 f2 l2 →
  reads (if b then m1 else m2)
    (λ r, if b then f1 r else f2 r) (λ r, if b then l1 r else l2 r).
Proof. by destruct b. Qed.

Lemma reads_toObject (theme : option Theme.t) :
  reads (toObject theme)
    (λ _, match theme with Some th => Ok th | None => Throw TypeError end)
    (λ _, []).
Proof. destruct theme; [apply reads_ret | apply reads_throw]. Qed.

Ltac reads_go :=
  repeat first
    [ apply reads_ret | apply reads_throw | apply reads_warning
    | apply reads_getRegistry | apply reads_toObject
    | eapply reads_bind; [ | intros ? ]
    | eapply reads_if ].

Lemma reads_getDefaultThemeKey :
  reads getDefaultThemeKey (λ r, Ok (defaultKey r)) (λ _, []).
Proof.
  unfold getDefaultThemeKey.
  eapply reads_ext; [reads_go | done | done].
Qed.

Lemma reads_getRegisteredTheme (themeKey : option string) (fallback : Theme.t) :
  reads (getRegisteredTheme themeKey (Some fallback))
    (λ r, Ok (Some (default fallback (Registry.themes r !! propertyName themeKey))))
    (λ _, []).
Proof.
  unfold getRegisteredTheme.
  eapply reads_ext; [reads_go | |]; intros r; cbv beta iota; [|done].
  by destruct (Registry.themes r !! propertyName themeKey).
Qed.

Lemma reads_overrideThemeVariables (themeKey : option string) (overrides : value) :
  reads (overrideThemeVariables themeKey overrides)
    (λ r, Ok (overridden r themeKey overrides))
    (λ r, overridden_log r themeKey overrides).
Proof.
  unfold overrideThemeVariables.
  eapply reads_ext;
    [eapply reads_bind; [apply reads_getRegisteredTheme | intros ?; reads_go] | |];
    intros r; cbv beta iota; unfold overridden, overridden_log, blocked, themeAt;
    by destruct (_ && _).
Qed.

Lemma reads_mergeWithDefaultThemeVariables (themeKey : option string)
    (overrides : value) :
  reads (mergeWithDefaultThemeVariables themeKey overrides)
    (λ r, Ok (resolved r themeKey overrides))
    (λ r, resolved_log r themeKey overrides).
Proof.
  unfold mergeWithDefaultThemeVariables.
  eapply reads_ext.
  { eapply reads_bind; [apply reads_getRegistry | intros registry].
    eapply reads_bind; [apply reads_getDefaultThemeKey | intros defaultThemeKey].
    eapply reads_if.
    - eapply reads_bind; [apply reads_overrideThemeVariables | intros variables].
      apply reads_overrideThemeVariables.
    - apply reads_overrideThemeVariables. }
  all: intros r; cbv beta iota; unfold resolved, resolved_log, stage1;
    by destruct (truthy_key themeKey).
Qed.

Lemma reads_effectiveKey (themeKey : option string) :
  reads (if truthy_key themeKey then ret (propertyName themeKey)
         else getDefaultThemeKey)
    (λ r, Ok (effectiveKey r themeKey)) (λ _, []).
Proof.
  eapply reads_ext;
    [eapply reads_if; [apply reads_ret | apply reads_getDefaultThemeKey] | |];
    intros r; cbv beta; unfold effectiveKey; [|by destruct (truthy_key _)].
  by destruct themeKey as [[|]|].
Qed.

Lemma reads_getRegisteredComponents (themeKey : option string) :
  reads (getRegisteredComponents themeKey)
    (λ r, Ok (bucket r themeKey)) (λ _, []).
Proof.
  unfold getRegisteredComponents.
  eapply reads_ext.
  { eapply reads_bind; [apply reads_getRegistry | intros registry].
    eapply reads_bind; [apply reads_effectiveKey | intros t]. apply reads_ret. }
  all: done.
Qed.

Lemma key_or_truthy (k : option string) (other : string) :
  truthy_key (Some other) = true → truthy_key (Some (key_or k other)) = true.
Proof. by destruct k as [[|]|]. Qed.

Lemma defaultKey_truthy (r : Registry.t) : truthy_key (Some (defaultKey r)) = true.
Proof. unfold defaultKey. by do 2 apply key_or_truthy. Qed.

Lemma effectiveKey_truthy (r : Registry.t) (themeKey : option string) :
  truthy_key (Some (effectiveKey r themeKey)) = true.
Proof. apply key_or_truthy, defaultKey_truthy. Qed.

Lemma key_or_Some (k other : string) :
  truthy_key (Some k) = true → key_or (Some k) other = k.
Proof. by destruct k. Qed.

Lemma effectiveKey_idem (r : Registry.t) (themeKey : option string) :
  effectiveKey r (Some (effectiveKey r themeKey)) = effectiveKey r themeKey.
Proof. apply key_or_Some, effectiveKey_truthy. Qed.

Lemma bucket_effectiveKey (r : Registry.t) (themeKey : option string) :
  bucket r (Some (effectiveKey r themeKey)) = bucket r themeKey.
Proof. unfold bucket. by rewrite effectiveKey_idem. Qed.

Lemma reads_console_error (e : value) :
  reads (console_error e) (λ _, Ok tt)
    (λ _, if production then [] else [ConsoleError e]).
Proof.
  intros w. unfold console_error. destruct production.
  - exists w. rewrite app_nil_r. done.
  - exists (emit (ConsoleError e) w). unfold liveRegistry. destruct w; done.
Qed.

Lemma reads_componentStyle (fn : option FunctionObject) (variables : value) :
  reads (match fn with
         | Some fn =>
             match call fn variables with
             | Ok style => ret style
             | Throw e => console_error e >>> ret (VObj ∅)
             end
         | None => ret (VObj ∅)
         end)
    (λ _, Ok (componentStyle fn variables))
    (λ _, componentStyle_log fn variables).
Proof.
  unfold componentStyle, componentStyle_log.
  destruct fn as [fn|]; [|apply reads_ret].
  destruct (call fn variables) as [style|e]; [apply reads_ret|].
  eapply reads_ext;
    [eapply reads_bind; [apply reads_console_error | intros ?; apply reads_ret]
    | done | intros r; cbv beta iota; by rewrite app_nil_r].
Qed.

(** The value [generateComponentTheme] returns and the diagnostics it
    emits, on a registry. *)
Lemma reads_generateComponentTheme (componentKey : propkey)
    (themeKey : option string) (overrides : value) :
  reads (generateComponentTheme componentKey themeKey overrides)
    (λ r,
       let t := effectiveKey r themeKey in
       let style := componentStyle (bucket r themeKey !! componentKey)
                      (resolved r themeKey VUndefined) in
       Ok (if blocked r (Some t) overrides then style
           else spread style (or_empty overrides)))
    (λ r,
       let t := effectiveKey r themeKey in
       resolved_log r themeKey VUndefined
       ++ componentStyle_log (bucket r themeKey !! componentKey)
            (resolved r themeKey VUndefined)
       ++ (if blocked r (Some t) overrides
           then [ComponentImmutable t componentKey overrides] else [])).
Proof.
  unfold generateComponentTheme.
  eapply reads_ext.
  { eapply reads_bind;
      [apply reads_mergeWithDefaultThemeVariables | intros variables].
    eapply reads_bind; [apply reads_effectiveKey | intros t].
    eapply reads_bind; [apply reads_getRegisteredComponents | intros components].
    eapply reads_bind; [apply reads_componentStyle | intros componentTheme].
    eapply reads_bind; [apply reads_getRegisteredTheme | intros theme].
    eapply reads_bind; [apply reads_toObject | intros theme'].
    eapply reads_if; [|apply reads_ret].
    eapply reads_bind; [apply reads_warning | intros ?; apply reads_ret]. }
  all: intros r; cbv beta iota zeta; rewrite bucket_effectiveKey;
    unfold blocked, themeAt; destruct (_ && _); by rewrite ?app_nil_r.
Qed.

Lemma reads_eval {A} (m : M A) f l (w : World) (a : A) :
  reads m f l → f (liveRegistry w) = Ok a → eval m w = Some a.
Proof.
  intros H Hf. destruct (H w) as (w' & E & _). unfold eval. by rewrite E, Hf.
Qed.

Lemma reads_eval_inv {A} (m : M A) f l (w : World) (a : A) :
  reads m f l → eval m w = Some a → f (liveRegistry w) = Ok a.
Proof.
  intros H. destruct (H w) as (w' & E & _). unfold eval. rewrite E.
  destruct (f (liveRegistry w)); naive_solver.
Qed.

Lemma reads_exec {A} (m : M A) f l (w : World) :
  reads m f l →
  liveRegistry (exec m w) = liveRegistry w
  ∧ uid_calls (exec m w) = uid_calls w
  ∧ diagnostics (exec m w) = diagnostics w ++ l (liveRegistry w).
Proof. intros H. destruct (H w) as (w' & E & ?). unfold exec. by rewrite E. Qed.
End reading.

Section component_themes.
Context `{env : Env}.

Lemma eval_getRegisteredThemes (w : World) :
  eval getRegisteredThemes w = Some (Registry.themes (liveRegistry w)).
Proof.
  apply (reads_eval _ (λ r, Ok (Registry.themes r)) (λ _, [])); [|done].
  unfold getRegisteredThemes.
  eapply reads_ext;
    [eapply reads_bind; [apply reads_getRegistry | intros ?; apply reads_ret]
    | done | done].
Qed.

Lemma eval_themeAt (w : World) (themeKey : option string) (theme : Theme.t) :
  eval (getRegisteredTheme themeKey (Some Theme.empty)) w = Some (Some theme) →
  themeAt (liveRegistry w) themeKey = theme.
Proof.
  intros H. eapply reads_eval_inv in H; [|apply reads_getRegisteredTheme].
  cbv beta in H. unfold themeAt. by simplify_eq.
Qed.

Lemma eval_defaultKey (w : World) (dk : string) :
  eval getDefaultThemeKey w = Some dk → defaultKey (liveRegistry w) = dk.
Proof.
  intros H. eapply reads_eval_inv in H; [|apply reads_getDefaultThemeKey].
  cbv beta in H. by simplify_eq.
Qed.

Lemma eval_bucket (w : World) (themeKey : option string) comps :
  eval (getRegisteredComponents themeKey) w = Some comps →
  bucket (liveRegistry w) themeKey = comps.
Proof.
  intros H. eapply reads_eval_inv in H; [|apply reads_getRegisteredComponents].
  cbv beta in H. by simplify_eq.
Qed.

Lemma eval_resolved (w : World) (themeKey : option string) (O vars : value) :
  eval (mergeWithDefaultThemeVariables themeKey O) w = Some vars →
  resolved (liveRegistry w) themeKey O = vars.
Proof.
  intros H.
  eapply reads_eval_inv in H; [|apply reads_mergeWithDefaultThemeVariables].
  cbv beta in H. by simplify_eq.
Qed.

Lemma has_keys_or_empty (O : value) : has_keys O = true → or_empty O = O.
Proof.
  unfold has_keys, or_empty. intros [-> _]%andb_true_iff. done.
Qed.

Lemma no_keys_ownProps (O : value) :
  has_keys O = false → ownProps (or_empty O) = ∅.
Proof.
  unfold has_keys, or_empty, Object_keys. destruct (truthy O); [|done].
  cbn. intros H%bool_decide_eq_false.
  rewrite length_fmap in H.
  destruct (map_to_list (ownProps O)) eqn:E; [|cbn in H; lia].
  by apply map_to_list_empty_iff.
Qed.

(** C2.  An immutable theme rejects every override that has at least
    one key: [overrideThemeVariables] returns the variables of the theme
    exactly as they are stored, the diagnostic is emitted, and the
    registered themes are what they were. *)
Theorem overrideThemeVariables_immutable (w : World) (k : string)
    (themes : gmap string Theme.t) (T : Theme.t) (O : value) :
  eval getRegisteredThemes w = Some themes →
  themes !! k = Some T →
  truthy (Theme.immutable T) = true →
  has_keys O = true →
  eval (overrideThemeVariables (Some k) O) w = Some (Theme.variables T)
  ∧ eval getRegisteredThemes (exec (overrideThemeVariables (Some k) O) w)
    = Some themes
  ∧ diagnostics (exec (overrideThemeVariables (Some k) O) w)
    = diagnostics w ++ [ThemeImmutable (Some k) O].
Proof.
  rewrite eval_getRegisteredThemes. intros [= <-] Hk Himm HO.
  assert (themeAt (liveRegistry w) (Some k) = T) as HT
    by (unfold themeAt; cbn; by rewrite Hk).
  assert (blocked (liveRegistry w) (Some k) O = true) as Hb
    by (unfold blocked; by rewrite HT, HO, Himm).
  pose proof (reads_overrideThemeVariables (Some k) O) as Hr.
  destruct (reads_exec _ _ _ w Hr) as (Hl & _ & Hd).
  split_and!.
  - eapply reads_eval; [exact Hr|]. unfold overridden. by rewrite Hb, HT.
  - by rewrite eval_getRegisteredThemes, Hl.
  - rewrite Hd. unfold overridden_log. by rewrite Hb.
Qed.

(** C3.  For a component key, which is a symbol, and overrides that have
    at least one key, [generateComponentTheme] returns the style object
    of the component's function untouched when the effective theme is
    immutable, and otherwise its shallow merge with the overrides, in
    which every key of the overrides carries the value of the overrides
    and every other key the value of the style object. *)
Theorem generateComponentTheme_overrides (w : World) (K : propkey)
    (themeKey : option string) (O : value) :
  is_symbol K = true →
  has_keys O = true →
  ∃ vars dk comps theme,
    eval (mergeWithDefaultThemeVariables themeKey VUndefined) w = Some vars
    ∧ eval getDefaultThemeKey w = Some dk
    ∧ eval (getRegisteredComponents themeKey) w = Some comps
    ∧ eval (getRegisteredTheme (Some (key_or themeKey dk)) (Some Theme.empty)) w
      = Some (Some theme)
    ∧ let style := componentStyle (comps !! K) vars in
      (truthy (Theme.immutable theme) = true →
         eval (generateComponentTheme K themeKey O) w = Some style)
      ∧ (truthy (Theme.immutable theme) = false →
           eval (generateComponentTheme K themeKey O) w = Some (spread style O)
           ∧ (∀ k v, ownProps O !! k = Some v →
                     ownProps (spread style O) !! k = Some v)
           ∧ (∀ k, ownProps O !! k = None →
                   ownProps (spread style O) !! k = ownProps style !! k)).
Proof.
  intros _ HO. set (r := liveRegistry w).
  exists (resolved r themeKey VUndefined), (defaultKey r), (bucket r themeKey),
    (themeAt r (Some (effectiveKey r themeKey))).
  refine (conj _ (conj _ (conj _ (conj _ _)))); [..|intros style; split].
  - by eapply reads_eval; [apply reads_mergeWithDefaultThemeVariables|].
  - by eapply reads_eval; [apply reads_getDefaultThemeKey|].
  - by eapply reads_eval; [apply reads_getRegisteredComponents|].
  - by eapply reads_eval; [apply reads_getRegisteredTheme|].
  - intros Himm. eapply reads_eval; [apply reads_generateComponentTheme|].
    cbv beta zeta. fold r. unfold blocked. by rewrite HO, Himm.
  - intros Himm. split_and!.
    + eapply reads_eval; [apply reads_generateComponentTheme|].
      cbv beta zeta. fold r. unfold blocked.
      by rewrite HO, Himm, has_keys_or_empty.
    + intros k v Hk. cbn. by apply lookup_union_Some_l.
    + intros k Hk. cbn. by apply lookup_union_r.
Qed.

(** C4.  When the function registered for the component throws on the
    resolved variables, [generateComponentTheme] still returns: the
    exception is logged to the console (outside production), the
    component's style is the empty object, and the overrides are applied
    to it as usual. *)
Theorem generateComponentTheme_catches (w : World) (K : propkey)
    (themeKey : option string) (O vars : value)
    (comps : gmap propkey FunctionObject) (fn : FunctionObject) (e : value) :
  eval (mergeWithDefaultThemeVariables themeKey VUndefined) w = Some vars →
  eval (getRegisteredComponents themeKey) w = Some comps →
  comps !! K = Some fn →
  call fn vars = Throw e →
  ∃ dk theme,
    eval getDefaultThemeKey w = Some dk
    ∧ eval (getRegisteredTheme (Some (key_or themeKey dk)) (Some Theme.empty)) w
      = Some (Some theme)
    ∧ eval (generateComponentTheme K themeKey O) w
      = Some (if has_keys O && truthy (Theme.immutable theme)
              then VObj ∅ else spread (VObj ∅) (or_empty O))
    ∧ (has_keys O = false →
         eval (generateComponentTheme K themeKey O) w = Some (VObj ∅))
    ∧ (production = false →
         ConsoleError e ∈ diagnostics (exec (generateComponentTheme K themeKey O) w)).
Proof.
  intros Hv%eval_resolved Hc%eval_bucket HK He. set (r := liveRegistry w) in *.
  exists (defaultKey r), (themeAt r (Some (effectiveKey r themeKey))).
  assert (componentStyle (bucket r themeKey !! K) (resolved r themeKey VUndefined)
          = VObj ∅) as Hs by (by rewrite Hc, Hv, HK; cbn; rewrite He).
  assert (eval (generateComponentTheme K themeKey O) w
          = Some (if has_keys O
                       && truthy (Theme.immutable
                                    (themeAt r (Some (effectiveKey r themeKey))))
                  then VObj ∅ else spread (VObj ∅) (or_empty O))) as Hres.
  { eapply reads_eval; [apply reads_generateComponentTheme|].
    cbv beta zeta. fold r. rewrite Hs. reflexivity. }
  split_and!.
  - by eapply reads_eval; [apply reads_getDefaultThemeKey|].
  - by eapply reads_eval; [apply reads_getRegisteredTheme|].
  - exact Hres.
  - intros HO. rewrite Hres, HO. cbn. unfold spread.
    by rewrite (no_keys_ownProps O HO), (left_id_L ∅ (∪)).
  - intros Hp.
    destruct (reads_exec _ _ _ w
                (reads_generateComponentTheme K themeKey O)) as (_ & _ & ->).
    cbv beta zeta. fold r. rewrite Hc, Hv, HK. cbn. rewrite He, Hp.
    rewrite !elem_of_app. right; right; left. by apply list_elem_of_singleton.
Qed.

(** C10.  For a component key, which is a symbol, without a function in
    the combined bucket and an effective theme that is not immutable,
    [generateComponentTheme] returns an object holding exactly the own
    properties of the overrides: the overrides themselves when they are
    an object, the empty object when they are absent or empty.  It does
    not throw, and the only diagnostics it can add are the immutability
    warnings of the variable resolution. *)
Theorem generateComponentTheme_unregistered (w : World) (K : propkey)
    (themeKey : option string) (O : value)
    (comps : gmap propkey FunctionObject) (dk : string) (theme : Theme.t) :
  is_symbol K = true →
  eval (getRegisteredComponents themeKey) w = Some comps →
  comps !! K = None →
  eval getDefaultThemeKey w = Some dk →
  eval (getRegisteredTheme (Some (key_or themeKey dk)) (Some Theme.empty)) w
    = Some (Some theme) →
  truthy (Theme.immutable theme) = false →
  eval (generateComponentTheme K themeKey O) w = Some (VObj (ownProps (or_empty O)))
  ∧ (∀ fields, O = VObj fields →
       eval (generateComponentTheme K themeKey O) w = Some (VObj fields))
  ∧ (has_keys O = false →
       eval (generateComponentTheme K themeKey O) w = Some (VObj ∅))
  ∧ ∃ ds, diagnostics (exec (generateComponentTheme K themeKey O) w)
          = diagnostics w ++ ds
          ∧ ∀ d, d ∈ ds → ∃ k o, d = ThemeImmutable k o.
Proof.
  intros _ Hc%eval_bucket HK Hdk%eval_defaultKey Ht Himm.
  set (r := liveRegistry w) in *. subst dk.
  apply eval_themeAt in Ht. fold r in Ht. change (key_or themeKey (defaultKey r))
    with (effectiveKey r themeKey) in Ht.
  assert (blocked r (Some (effectiveKey r themeKey)) O = false) as Hb
    by (unfold blocked; rewrite Ht, Himm; apply andb_false_r).
  assert (eval (generateComponentTheme K themeKey O) w
          = Some (VObj (ownProps (or_empty O)))) as Hres.
  { eapply reads_eval; [apply reads_generateComponentTheme|].
    cbv beta zeta. fold r. rewrite Hb, Hc, HK. cbn. unfold spread. cbn.
    by rewrite (right_id_L ∅ (∪)). }
  split_and!; [done| | |].
  - intros fields ->. by rewrite Hres.
  - intros HO. by rewrite Hres, no_keys_ownProps.
  - destruct (reads_exec _ _ _ w
                (reads_generateComponentTheme K themeKey O)) as (_ & _ & ->).
    eexists; split; [done|]. cbv beta zeta. fold r. rewrite Hb, Hc, HK. cbn.
    rewrite app_nil_r. unfold resolved_log, overridden_log.
    intros d [Hd|Hd]%elem_of_app; revert Hd;
      repeat case_match; rewrite ?elem_of_nil, ?list_elem_of_singleton;
      naive_solver.
Qed.

(** C5.  [getDefaultThemeKey] prefers the explicit default key, then the
    first registered key, then the reserved constant; a key counts as
    set when it is a non-empty string, as [||] has it.  After
    [clearRegistry] the reserved constant is returned. *)
Theorem getDefaultThemeKey_preference (w : World) :
  (∀ k, Registry.defaultThemeKey (liveRegistry w) = Some k → k ≠ "" →
        eval getDefaultThemeKey w = Some k)
  ∧ (∀ k rest,
       truthy_key (Registry.defaultThemeKey (liveRegistry w)) = false →
       Registry.registered (liveRegistry w) = k :: rest → k ≠ "" →
       eval getDefaultThemeKey w = Some k)
  ∧ (truthy_key (Registry.defaultThemeKey (liveRegistry w)) = false →
     Registry.registered (liveRegistry w) = [] →
     eval getDefaultThemeKey w = Some DEFAULT_THEME_KEY)
  ∧ liveRegistry (exec clearRegistry w) = makeRegistry
  ∧ eval getDefaultThemeKey (exec clearRegistry w) = Some DEFAULT_THEME_KEY.
Proof.
  assert (∀ w', eval getDefaultThemeKey w' = Some (defaultKey (liveRegistry w')))
    as Hev by (intros w'; by eapply reads_eval; [apply reads_getDefaultThemeKey|]).
  assert (liveRegistry (exec clearRegistry w) = makeRegistry) as Hclear.
  { unfold exec, clearRegistry, setRegistry, liveRegistry. cbn.
    destruct canUseDOM; done. }
  rewrite !Hev, Hclear. unfold defaultKey. split_and!; [| | |done|done].
  - intros k -> Hk. by destruct k.
  - intros k rest Hd -> Hk.
    destruct (Registry.defaultThemeKey _) as [[|]|]; [|done|]; by destruct k.
  - intros Hd ->. by destruct (Registry.defaultThemeKey _) as [[|]|].
Qed.
End component_themes.

Section writing.
Context `{env : Env}.

Lemma mutateRegistry_run (f : Registry.t → Registry.t) (w : World) :
  ∃ w', mutateRegistry f w = (Ok tt, w')
        ∧ liveRegistry w' = f (liveRegistry w)
        ∧ uid_calls w' = uid_calls w
        ∧ diagnostics w' = diagnostics w.
Proof.
  destruct w as [g s n ds]. unfold mutateRegistry, liveRegistry. cbn.
  destruct canUseDOM; cbn; [|eauto]. destruct s; cbn; eauto.
Qed.

Lemma uid_call_run (w : World) :
  ∃ w', uid_call w = (Ok (uid (uid_calls w)), w')
        ∧ liveRegistry w' = liveRegistry w
        ∧ uid_calls w' = S (uid_calls w)
        ∧ diagnostics w' = diagnostics w.
Proof. exists (bump_uid w). by destruct w. Qed.

(** The key [registerTheme] files a theme under. *)
Lemma registerTheme_run (theme : Theme.t) (w : World) :
  let key := if truthy_key (Theme.key theme) then propertyName (Theme.key theme)
             else uid (uid_calls w) in
  ∃ w', registerTheme theme w = (Ok tt, w')
        ∧ liveRegistry w' =
            {| Registry.defaultThemeKey := Registry.defaultThemeKey (liveRegistry w);
               Registry.components := Registry.components (liveRegistry w);
               Registry.themes := <[key := theme]> (Registry.themes (liveRegistry w));
               Registry.registered := Registry.registered (liveRegistry w) ++ [key];
               Registry.overrides := Registry.overrides (liveRegistry w) |}
        ∧ uid_calls w' = (if truthy_key (Theme.key theme) then uid_calls w
                          else S (uid_calls w))
        ∧ diagnostics w' = diagnostics w.
Proof.
  intros key. unfold registerTheme, bind at 1.
  destruct (reads_getRegistry w) as (w1 & -> & R1 & U1 & D1). cbv beta iota.
  rewrite app_nil_r in D1. unfold bind. subst key.
  destruct (truthy_key (Theme.key theme)).
  - unfold ret. destruct (mutateRegistry_run
      (λ r, {| Registry.defaultThemeKey := Registry.defaultThemeKey r;
               Registry.components := Registry.components r;
               Registry.themes :=
                 <[propertyName (Theme.key theme) := theme]> (Registry.themes r);
               Registry.registered :=
                 Registry.registered r ++ [propertyName (Theme.key theme)];
               Registry.overrides := Registry.overrides r |}) w1)
      as (w2 & -> & R2 & U2 & D2).
    exists w2. by rewrite R2, U2, D2, R1, U1, D1.
  - destruct (uid_call_run w1) as (w2 & -> & R2 & U2 & D2). rewrite U1.
    destruct (mutateRegistry_run
      (λ r, {| Registry.defaultThemeKey := Registry.defaultThemeKey r;
               Registry.components := Registry.components r;
               Registry.themes := <[uid (uid_calls w) := theme]> (Registry.themes r);
               Registry.registered := Registry.registered r ++ [uid (uid_calls w)];
               Registry.overrides := Registry.overrides r |}) w2)
      as (w3 & -> & R3 & U3 & D3).
    exists w3. by rewrite R3, U3, D3, R2, U2, D2, R1, U1, D1.
Qed.

Lemma setDefaultTheme_run (themeKey : string) (overrides immutable : value)
    (w : World) :
  let theme := Theme.with_immutable
                 (Registry.themes (liveRegistry w) !! themeKey) immutable in
  ∃ w', setDefaultTheme themeKey overrides immutable w = (Ok theme, w')
        ∧ liveRegistry w' =
            {| Registry.defaultThemeKey := Some themeKey;
               Registry.components := Registry.components (liveRegistry w);
               Registry.themes := <[themeKey := theme]> (Registry.themes (liveRegistry w));
               Registry.registered := Registry.registered (liveRegistry w);
               Registry.overrides := overrides |}
        ∧ uid_calls w' = uid_calls w.
Proof.
  intros theme. unfold setDefaultTheme, bind at 1.
  destruct (reads_getRegistry w) as (w1 & -> & R1 & U1 & D1). cbv beta iota.
  unfold bind at 1.
  destruct (reads_warning
              (bool_decide (is_Some (Registry.themes (liveRegistry w) !! themeKey)))
              (ThemeNotFound (Some themeKey)) w1) as (w2 & -> & R2 & U2 & D2).
  cbv beta iota. unfold bind, ret.
  destruct (mutateRegistry_run
    (λ r, {| Registry.defaultThemeKey := Some themeKey;
             Registry.components := Registry.components r;
             Registry.themes := <[themeKey := theme]> (Registry.themes r);
             Registry.registered := Registry.registered r;
             Registry.overrides := overrides |}) w2)
    as (w3 & E3 & R3 & U3 & D3).
  subst theme. rewrite E3. exists w3. by rewrite R3, U3, R2, U2, R1, U1.
Qed.

Lemma registerForTheme_same (K : propkey) (fn : FunctionObject)
    (comps : gmap string (gmap propkey FunctionObject)) (tk : string) :
  ∃ b, registerForTheme K fn comps tk !! tk = Some b
       ∧ b !! K = Some (makeComponentTheme fn tk).
Proof.
  unfold registerForTheme. eexists. rewrite lookup_insert_eq.
  split; [done|]. by rewrite lookup_insert_eq.
Qed.

Lemma registerForTheme_other (K : propkey) (fn : FunctionObject)
    (comps : gmap string (gmap propkey FunctionObject)) (tk tk' : string) :
  tk ≠ tk' → registerForTheme K fn comps tk !! tk' = comps !! tk'.
Proof.
  intros Hne. unfold registerForTheme. rewrite lookup_insert_ne by done.
  destruct (comps !! tk); [done|]. by rewrite lookup_insert_ne.
Qed.

(** After the [forEach] of [registerComponentTheme], every theme key it
    went through has the wrapped function under the component key. *)
Lemma foldl_registerForTheme (K : propkey) (fn : FunctionObject)
    (keys : list string) (comps : gmap string (gmap propkey FunctionObject))
    (tk : string) :
  tk ∈ keys →
  ∃ b, foldl (registerForTheme K fn) comps keys !! tk = Some b
       ∧ b !! K = Some (makeComponentTheme fn tk).
Proof.
  induction keys as [|key keys IH] using rev_ind; [by intros ?%elem_of_nil|].
  intros Hin. rewrite foldl_snoc.
  destruct (decide (key = tk)) as [->|Hne]; [apply registerForTheme_same|].
  rewrite registerForTheme_other by done. apply IH.
  apply elem_of_app in Hin as [?|Hin%list_elem_of_singleton]; congruence.
Qed.

Lemma registerComponentTheme_run (K : propkey) (fn : FunctionObject)
    (w : World) (fallback : gmap propkey FunctionObject) :
  Registry.components (liveRegistry w) !! DEFAULT_THEME_KEY = Some fallback →
  ∃ w', registerComponentTheme K (AFunction fn) w = (Ok tt, w')
        ∧ liveRegistry w' =
            set_components (λ components,
              foldl (registerForTheme K fn)
                (<[DEFAULT_THEME_KEY := <[K := fn]> fallback]> components)
                (map_to_list (properties fn)).*1) (liveRegistry w)
        ∧ uid_calls w' = uid_calls w
        ∧ diagnostics w' = diagnostics w.
Proof.
  intros Hd. unfold registerComponentTheme, bind at 1.
  destruct (reads_getRegistry w) as (w1 & -> & R1 & U1 & D1). cbv beta iota.
  rewrite app_nil_r in D1. rewrite Hd. unfold bind.
  destruct (mutateRegistry_run (set_components
              (insert DEFAULT_THEME_KEY (<[K := fn]> fallback))) w1)
    as (w2 & -> & R2 & U2 & D2).
  destruct (mutateRegistry_run (set_components (λ components,
              foldl (registerForTheme K fn) components
                (map_to_list (properties fn)).*1)) w2)
    as (w3 & -> & R3 & U3 & D3).
  exists w3. by rewrite R3, U3, D3, R2, U2, D2, R1, U1, D1.
Qed.

(** Whatever its arguments, [registerComponentTheme] touches nothing
    but the [components] of the registry. *)
Lemma registerComponentTheme_frame (K : propkey) (fn : argument) (w : World) :
  ∃ g, liveRegistry (exec (registerComponentTheme K fn) w)
       = set_components g (liveRegistry w)
       ∧ uid_calls (exec (registerComponentTheme K fn) w) = uid_calls w.
Proof.
  destruct fn as [fn|v].
  - destruct (Registry.components (liveRegistry w) !! DEFAULT_THEME_KEY)
      as [fallback|] eqn:Hd.
    + destruct (registerComponentTheme_run K fn w fallback Hd)
        as (w' & E & R & U & _).
      unfold exec. rewrite E. eauto.
    + exists id. unfold exec, registerComponentTheme, bind.
      destruct (reads_getRegistry w) as (w1 & -> & R1 & U1 & D1).
      cbv beta iota. rewrite Hd. unfold throw. cbn. rewrite R1, U1.
      by destruct (liveRegistry w).
  - exists id. unfold exec, registerComponentTheme, bind.
    destruct (reads_getRegistry w) as (w1 & -> & R1 & U1 & D1).
    cbn. rewrite R1, U1. by destruct (liveRegistry w).
Qed.
End writing.

Section specializations.
Context `{env : Env}.

End specializations.

Section bulk.
Context `{env : Env}.

Lemma reads_lift {A} (x : res A) :
  reads (λ w, (x, w)) (λ _, x) (λ _, []).
Proof. intros w. exists w. by rewrite app_nil_r. Qed.

Lemma reads_generateTheme (themeKey : option string) (overrides : value) :
  reads (generateTheme themeKey overrides)
    (λ r, generateEach (getOwnPropertySymbols (bucket r themeKey))
            (resolved r themeKey overrides) ∅)
    (λ r, (if bool_decide (0 < length (Registry.registered r)) then []
           else [NoThemesRegistered])
          ++ resolved_log r themeKey overrides).
Proof.
  unfold generateTheme.
  eapply reads_ext.
  { eapply reads_bind; [apply reads_getRegistry | intros registry].
    eapply reads_bind; [apply reads_warning | intros ?].
    eapply reads_bind; [apply reads_getRegisteredComponents | intros components].
    eapply reads_bind;
      [apply reads_mergeWithDefaultThemeVariables | intros variables].
    exact (reads_lift (generateEach (getOwnPropertySymbols components) variables ∅)). }
  all: intros r; cbv beta iota; by rewrite ?app_nil_r.
Qed.

Lemma reads_getTheme (themeKey : option string) :
  reads (getTheme themeKey)
    (λ r, Ok (or_empty (Theme.variables (themeAt r themeKey)))) (λ _, []).
Proof.
  unfold getTheme.
  eapply reads_ext;
    [eapply reads_bind; [apply reads_getRegisteredTheme | intros ?];
     eapply reads_bind; [apply reads_toObject | intros ?; apply reads_ret]
    | done | done].
Qed.

Lemma NoDup_fst_filter {A B} (P : A * B → Prop) `{∀ x, Decision (P x)}
    (l : list (A * B)) :
  NoDup l.*1 → NoDup (filter P l).*1.
Proof.
  induction l as [|[a b] l IH]; [done|].
  rewrite fmap_cons. intros [Ha Hl]%NoDup_cons.
  rewrite filter_cons. destruct (decide (P (a, b))); [|auto].
  rewrite fmap_cons. apply NoDup_cons. split; [|auto].
  intros ([a' b'] & Heq & [_ Hin]%list_elem_of_filter)%list_elem_of_fmap.
  cbn in Heq. subst a'. apply Ha, list_elem_of_fmap. by exists (a, b').
Qed.

Lemma elem_of_getOwnPropertySymbols {A} (o : gmap propkey A) (K : propkey) (x : A) :
  (K, x) ∈ getOwnPropertySymbols o ↔ is_symbol K = true ∧ o !! K = Some x.
Proof.
  unfold getOwnPropertySymbols.
  by rewrite list_elem_of_filter, elem_of_map_to_list.
Qed.

Lemma NoDup_getOwnPropertySymbols {A} (o : gmap propkey A) :
  NoDup (getOwnPropertySymbols o).*1.
Proof. apply NoDup_fst_filter, NoDup_fst_map_to_list. Qed.

(** The [forEach] of [generateTheme] when no function throws: every
    entry's key receives the value of its function, over what the
    object held before. *)
Lemma generateEach_ok (entries : list (propkey * FunctionObject))
    (variables : value) (theme : gmap propkey value) :
  NoDup entries.*1 →
  (∀ K fn, (K, fn) ∈ entries → ∃ style, call fn variables = Ok style) →
  ∃ m, generateEach entries variables theme = Ok m
       ∧ ∀ K, m !! K =
              match list_to_map (M := gmap propkey FunctionObject) entries !! K with
              | Some fn => Some (componentStyle (Some fn) variables)
              | None => theme !! K
              end.
Proof.
  revert theme. induction entries as [|[K0 fn0] entries IH]; intros theme Hnd Hok.
  { exists theme. split; [done|]. intros K.
    by rewrite list_to_map_nil, lookup_empty. }
  cbn in Hnd. apply NoDup_cons in Hnd as [HK0 Hnd].
  destruct (Hok K0 fn0) as [style Hstyle]; [apply elem_of_cons; by left|].
  cbn [generateEach]. rewrite Hstyle.
  destruct (IH (<[K0 := style]> theme) Hnd) as (m & -> & Hm).
  { intros K fn Hin. apply (Hok K fn), elem_of_cons. by right. }
  exists m. split; [done|]. intros K. rewrite Hm, list_to_map_cons.
  destruct (decide (K0 = K)) as [<-|Hne].
  - rewrite lookup_insert_eq, (not_elem_of_list_to_map_1 entries K0) by done.
    rewrite lookup_insert_eq. cbn. by rewrite Hstyle.
  - by rewrite !(lookup_insert_ne _ K0 K) by done.
Qed.

(** When the function of an entry throws, so does the [forEach]. *)
Lemma generateEach_throw (entries : list (propkey * FunctionObject))
    (variables : value) (theme : gmap propkey value) K fn e :
  (K, fn) ∈ entries → call fn variables = Throw e →
  ∃ e', generateEach entries variables theme = Throw e'.
Proof.
  revert theme. induction entries as [|[K0 fn0] entries IH]; intros theme Hin He.
  { by apply elem_of_nil in Hin. }
  cbn. destruct (call fn0 variables) as [style|e0] eqn:E0; [|eauto].
  apply elem_of_cons in Hin as [[= <- <-]|Hin]; [congruence|]. by apply IH.
Qed.

(** C8, as the code has it.  [generateTheme] goes through the symbol
    keys of the combined bucket only.  When none of their functions
    throws on the resolved variables it returns a mapping whose keys are
    exactly those symbol keys, each with the result of its function;
    when one throws, the exception leaves [generateTheme] and no mapping
    is returned. *)
Theorem generateTheme_symbol_keys (w : World) (themeKey : option string)
    (overrides : value) :
  ∃ vars comps,
    eval (mergeWithDefaultThemeVariables themeKey overrides) w = Some vars
    ∧ eval (getRegisteredComponents themeKey) w = Some comps
    ∧ ((∀ K fn, comps !! K = Some fn → is_symbol K = true →
                ∃ style, call fn vars = Ok style) →
       ∃ m, eval (generateTheme themeKey overrides) w = Some m
            ∧ (∀ K, is_Some (m !! K) ↔ is_symbol K = true ∧ is_Some (comps !! K))
            ∧ (∀ K fn style, comps !! K = Some fn → is_symbol K = true →
                             call fn vars = Ok style → m !! K = Some style))
    ∧ (∀ K fn e, comps !! K = Some fn → is_symbol K = true →
                 call fn vars = Throw e →
                 eval (generateTheme themeKey overrides) w = None).
Proof.
  set (r := liveRegistry w).
  exists (resolved r themeKey overrides), (bucket r themeKey).
  pose proof (reads_generateTheme themeKey overrides w) as (w' & E & _).
  fold r in E. cbv beta in E.
  split_and!.
  - by eapply reads_eval; [apply reads_mergeWithDefaultThemeVariables|].
  - by eapply reads_eval; [apply reads_getRegisteredComponents|].
  - intros Hok.
    destruct (generateEach_ok (getOwnPropertySymbols (bucket r themeKey))
                (resolved r themeKey overrides) ∅) as (m & Hm & Hlook).
    { apply NoDup_getOwnPropertySymbols. }
    { intros K fn [??]%elem_of_getOwnPropertySymbols. eauto. }
    exists m. unfold eval. rewrite E, Hm. split; [done|].
    assert (∀ K, m !! K = if is_symbol K
              then (λ fn, componentStyle (Some fn) (resolved r themeKey overrides))
                     <$> bucket r themeKey !! K
              else None) as Hlook'.
    { intros K. rewrite Hlook, lookup_empty.
      destruct (list_to_map _ !! K) as [fn|] eqn:EK.
      - apply elem_of_list_to_map in EK; [|apply NoDup_getOwnPropertySymbols].
        apply elem_of_getOwnPropertySymbols in EK as [-> ->]. done.
      - destruct (is_symbol K) eqn:Hsym; [|done].
        destruct (bucket r themeKey !! K) as [fn|] eqn:EK'; [|done].
        apply not_elem_of_list_to_map in EK. exfalso. apply EK.
        apply list_elem_of_fmap. exists (K, fn). split; [done|].
        by apply elem_of_getOwnPropertySymbols. }
    split.
    + intros K. rewrite Hlook'. destruct (is_symbol K).
      * rewrite fmap_is_Some. split; [by intros ?; split | by intros [_ ?]].
      * split; [by intros [? ?]|by intros [? _]].
    + intros K fn style HK Hsym Hcall. rewrite Hlook', Hsym, HK. cbn.
      by rewrite Hcall.
  - intros K fn e HK Hsym He.
    destruct (generateEach_throw (getOwnPropertySymbols (bucket r themeKey))
                (resolved r themeKey overrides) ∅ K fn e) as [e' He'];
      [by apply elem_of_getOwnPropertySymbols | done |].
    unfold eval. by rewrite E, He'.
Qed.
End bulk.

Section registrations.
Context `{env : Env}.

Lemma exec_discard {A} (m : M A) (w : World) : exec (m >>> ret tt) w = exec m w.
Proof. unfold exec, bind, ret. by destruct (m w) as [[a|e] w']. Qed.

Lemma liveRegistry_setRegistry (registry : Registry.t) (w : World) :
  liveRegistry (exec (setRegistry registry) w) = registry
  ∧ uid_calls (exec (setRegistry registry) w) = uid_calls w.
Proof.
  unfold exec, setRegistry, liveRegistry. cbn. by destruct canUseDOM.
Qed.

(** What a call does to [registered] and to the number of [uid] calls. *)
Lemma perform_registered (op : operation) (w : World) :
  Registry.registered (liveRegistry (exec (perform op) w))
  = registrations [op] (uid_calls w) (Registry.registered (liveRegistry w))
  ∧ uid_calls (exec (perform op) w)
    = match op with
      | RegisterTheme theme =>
          if truthy_key (Theme.key theme) then uid_calls w else S (uid_calls w)
      | _ => uid_calls w
      end.
Proof.
  destruct op as [theme|k o i|K fn|registry| |tk o|K tk o|tk]; cbn [perform].
  - destruct (registerTheme_run theme w) as (w' & E & R & U & _).
    unfold exec. rewrite E. cbn [snd registrations]. rewrite R, U.
    by destruct (truthy_key (Theme.key theme)).
  - rewrite exec_discard.
    destruct (setDefaultTheme_run k o i w) as (w' & E & R & U).
    unfold exec. rewrite E. cbn [snd]. by rewrite R, U.
  - destruct (registerComponentTheme_frame K fn w) as (g & -> & ->). done.
  - by destruct (liveRegistry_setRegistry registry w) as [-> ->].
  - unfold clearRegistry.
    by destruct (liveRegistry_setRegistry makeRegistry w) as [-> ->].
  - rewrite exec_discard.
    by destruct (reads_exec _ _ _ w (reads_generateTheme tk o)) as (-> & -> & _).
  - rewrite exec_discard.
    by destruct (reads_exec _ _ _ w (reads_generateComponentTheme K tk o))
      as (-> & -> & _).
  - rewrite exec_discard.
    by destruct (reads_exec _ _ _ w (reads_getTheme tk)) as (-> & -> & _).
Qed.

Lemma run_registered (ops : list operation) (w : World) :
  Registry.registered (liveRegistry (run ops w))
  = registrations ops (uid_calls w) (Registry.registered (liveRegistry w)).
Proof.
  revert w. induction ops as [|op ops IH]; intros w; [done|].
  change (run (op :: ops) w) with (run ops (exec (perform op) w)).
  rewrite IH. destruct (perform_registered op w) as [-> ->].
  destruct op as [theme| | | | | | |]; cbn [registrations]; try done.
  by destruct (truthy_key (Theme.key theme)).
Qed.

(** C7, as the code has it.  Every [registerTheme] call appends the key
    it files the theme under at the end of [registered], whether or not
    the key is there already; from a fresh registry, [registered] is the
    sequence of the keys registered since the registry was last
    replaced, in call order and with their repetitions. *)
Theorem registered_in_call_order :
  (∀ w theme,
     Registry.registered (liveRegistry (exec (registerTheme theme) w))
     = Registry.registered (liveRegistry w)
       ++ [if truthy_key (Theme.key theme) then propertyName (Theme.key theme)
           else uid (uid_calls w)])
  ∧ (∀ ops,
       Registry.registered (liveRegistry (run ops initialWorld))
       = registrations ops 0 []).
Proof.
  split.
  - intros w theme.
    destruct (perform_registered (RegisterTheme theme) w) as [H _].
    cbn [perform] in H. rewrite H.
    cbn [registrations]. by destruct (truthy_key (Theme.key theme)).
  - intros ops. rewrite run_registered. unfold liveRegistry. cbn.
    by destruct canUseDOM.
Qed.

(** C6, as the code has it.  For a theme without a key, [registerTheme]
    takes the next identifier of [uid], files the theme under it exactly
    as it was passed (its [key] stays absent) and appends the identifier
    to [registered]; with [uid] generating distinct identifiers, it
    differs from every identifier [uid] has given out before. *)
Theorem registerTheme_keyless (w : World) (theme : Theme.t) :
  Inj (=) (=) uid →
  truthy_key (Theme.key theme) = false →
  let key := uid (uid_calls w) in
  let w' := exec (registerTheme theme) w in
  eval (registerTheme theme) w = Some tt
  ∧ Registry.themes (liveRegistry w') = <[key := theme]> (Registry.themes (liveRegistry w))
  ∧ Registry.themes (liveRegistry w') !! key = Some theme
  ∧ Registry.registered (liveRegistry w') = Registry.registered (liveRegistry w) ++ [key]
  ∧ uid_calls w' = S (uid_calls w)
  ∧ ∀ n, n < uid_calls w → uid n ≠ key.
Proof.
  intros Hinj Hkey key w'. subst key w'.
  destruct (registerTheme_run theme w) as (w' & E & R & U & _).
  rewrite Hkey in R, U. unfold eval, exec. rewrite E. cbn [snd]. rewrite R, U.
  cbn. split_and!; try done.
  - by rewrite lookup_insert_eq.
  - intros n Hn Heq%Hinj. lia.
Qed.
End registrations.

Section scenario.
Context (dom prod : bool) `{env : Env} (Henv : env = specEnv dom prod).

(** The registry after the scenario: both themes filed, [base] the
    default and marked mutable. *)
Lemma scenario_registry (w : World) :
  liveRegistry (exec scenario w) =
    {| Registry.defaultThemeKey := Some "base";
       Registry.components := Registry.components (liveRegistry w);
       Registry.themes :=
         <["base" := baseTheme]>
           (<["strict" := strictTheme]>
              (<["base" := baseTheme]> (Registry.themes (liveRegistry w))));
       Registry.registered := Registry.registered (liveRegistry w) ++ ["base"; "strict"];
       Registry.overrides := VObj ∅ |}.
Proof.
  unfold scenario, exec, bind.
  destruct (registerTheme_run baseTheme w) as (w1 & -> & R1 & _).
  destruct (registerTheme_run strictTheme w1) as (w2 & -> & R2 & _).
  destruct (setDefaultTheme_run "base" (VObj ∅) (VBool false) w2)
    as (w3 & -> & R3 & _).
  cbn [snd ret]. rewrite R3, R2, R1. cbn.
  rewrite lookup_insert_ne by done. rewrite lookup_insert_eq. cbn.
  by rewrite <- app_assoc.
Qed.

(** C1.  After registering [base] (mutable, blue) and [strict]
    (immutable, red) and making [base] the default,
    [generateTheme('strict', {color:'green'})] resolves the variables to
    [{color:'red'}]: [strict] rejects the green override, and its own
    variables are merged over those of [base], which is mutable.  These
    are the variables every component function is invoked with. *)
Theorem scenario_strict_resolves_red (w : World) :
  eval (overrideThemeVariables (Some "strict") green) (exec scenario w) = Some red
  ∧ eval getDefaultThemeKey (exec scenario w) = Some "base"
  ∧ eval (overrideThemeVariables (Some "base") red) (exec scenario w) = Some red
  ∧ eval (mergeWithDefaultThemeVariables (Some "strict") green) (exec scenario w)
    = Some red
  ∧ ownProps red !! "color" = Some (VStr "red")
  ∧ ∃ comps,
      eval (getRegisteredComponents (Some "strict")) (exec scenario w) = Some comps
      ∧ eval (generateTheme (Some "strict") green) (exec scenario w)
        = match generateEach (getOwnPropertySymbols comps) red ∅ with
          | Ok theme => Some theme
          | Throw _ => None
          end.
Proof.
  pose proof (scenario_registry w) as R.
  set (r1 := liveRegistry (exec scenario w)) in *.
  assert (themeAt r1 (Some "strict") = strictTheme) as Hstrict.
  { unfold themeAt. rewrite R. cbn.
    rewrite lookup_insert_ne by done. by rewrite lookup_insert_eq. }
  assert (themeAt r1 (Some "base") = baseTheme) as Hbase.
  { unfold themeAt. rewrite R. cbn. by rewrite lookup_insert_eq. }
  assert (defaultKey r1 = "base") as Hdk by (by rewrite R).
  assert (overridden r1 (Some "strict") green = red) as Hs1.
  { unfold overridden, blocked. by rewrite Hstrict. }
  assert (overridden r1 (Some "base") red = red) as Hs2.
  { unfold overridden, blocked. rewrite Hbase, Henv. by vm_compute. }
  assert (resolved r1 (Some "strict") green = red) as Hres.
  { unfold resolved, stage1. cbn [truthy_key default_empty green].
    fold green. by rewrite Hs1, Hdk. }
  split_and!.
  - eapply reads_eval; [apply reads_overrideThemeVariables|].
    cbv beta. fold r1. by rewrite Hs1.
  - eapply reads_eval; [apply reads_getDefaultThemeKey|].
    cbv beta. fold r1. by rewrite Hdk.
  - eapply reads_eval; [apply reads_overrideThemeVariables|].
    cbv beta. fold r1. by rewrite Hs2.
  - eapply reads_eval; [apply reads_mergeWithDefaultThemeVariables|].
    cbv beta. fold r1. by rewrite Hres.
  - done.
  - exists (bucket r1 (Some "strict")). split.
    + by eapply reads_eval; [apply reads_getRegisteredComponents|].
    + destruct (reads_generateTheme (Some "strict") green (exec scenario w))
        as (w' & E & _).
      unfold eval. rewrite E. cbv beta. fold r1. by rewrite Hres.
Qed.
End scenario.

(** * The default bucket *)

Section default_bucket.
Context `{env : Env}.

(** [getRegistry] returns the live registry. *)
Lemma eval_getRegistry (w : World) : eval getRegistry w = Some (liveRegistry w).
Proof. by eapply reads_eval; [apply reads_getRegistry|]. Qed.

Lemma registerForTheme_is_Some (K : propkey) (fn : FunctionObject)
    (comps : gmap string (gmap propkey FunctionObject)) (tk k : string) :
  is_Some (comps !! k) → is_Some (registerForTheme K fn comps tk !! k).
Proof.
  intros Hk. destruct (decide (tk = k)) as [->|Hne].
  - destruct (registerForTheme_same K fn comps k) as (b & -> & _). by eexists.
  - by rewrite registerForTheme_other.
Qed.

Lemma foldl_registerForTheme_is_Some (K : propkey) (fn : FunctionObject)
    (keys : list string) (comps : gmap string (gmap propkey FunctionObject))
    (k : string) :
  is_Some (comps !! k) → is_Some (foldl (registerForTheme K fn) comps keys !! k).
Proof.
  revert comps. induction keys as [|key keys IH]; intros comps Hk; [done|].
  cbn [foldl]. by apply IH, registerForTheme_is_Some.
Qed.

(** No call other than [setRegistry] takes the default bucket away. *)
Lemma perform_default_bucket (op : operation) (w : World) :
  (∀ registry, op ≠ SetRegistry registry) →
  is_Some (Registry.components (liveRegistry w) !! DEFAULT_THEME_KEY) →
  is_Some (Registry.components (liveRegistry (exec (perform op) w))
             !! DEFAULT_THEME_KEY).
Proof.
  intros Hop Hd.
  destruct op as [theme|k o i|K fn|registry| |tk o|K tk o|tk]; cbn [perform].
  - destruct (registerTheme_run theme w) as (w' & E & R & _).
    unfold exec. rewrite E. cbn [snd]. by rewrite R.
  - rewrite exec_discard.
    destruct (setDefaultTheme_run k o i w) as (w' & E & R & _).
    unfold exec. rewrite E. cbn [snd]. by rewrite R.
  - destruct fn as [fn|v].
    + destruct Hd as [fallback Hd].
      destruct (registerComponentTheme_run K fn w fallback Hd) as (w' & E & R & _).
      unfold exec. rewrite E. cbn [snd]. rewrite R. cbn.
      apply foldl_registerForTheme_is_Some. rewrite lookup_insert_eq. by eexists.
    + unfold exec, registerComponentTheme, bind.
      destruct (reads_getRegistry w) as (w1 & -> & R1 & _). cbn. by rewrite R1.
  - by destruct (Hop registry).
  - unfold clearRegistry.
    destruct (liveRegistry_setRegistry makeRegistry w) as [-> _]. by eexists.
  - rewrite exec_discard.
    by destruct (reads_exec _ _ _ w (reads_generateTheme tk o)) as (-> & _).
  - rewrite exec_discard.
    by destruct (reads_exec _ _ _ w (reads_generateComponentTheme K tk o))
      as (-> & _).
  - rewrite exec_discard.
    by destruct (reads_exec _ _ _ w (reads_getTheme tk)) as (-> & _).
Qed.

(** From the initial world, the default bucket is there after every
    sequence of calls that does not install a registry of the caller's. *)
Lemma run_default_bucket (ops : list operation) :
  Forall (λ op, ∀ registry, op ≠ SetRegistry registry) ops →
  is_Some (Registry.components (liveRegistry (run ops initialWorld))
             !! DEFAULT_THEME_KEY).
Proof.
  assert (∀ w, Forall (λ op, ∀ registry, op ≠ SetRegistry registry) ops →
               is_Some (Registry.components (liveRegistry w) !! DEFAULT_THEME_KEY) →
               is_Some (Registry.components (liveRegistry (run ops w))
                          !! DEFAULT_THEME_KEY)) as H.
  { induction ops as [|op ops IH]; intros w Hops Hd; [done|].
    apply Forall_cons in Hops as [Hop Hops].
    change (run (op :: ops) w) with (run ops (exec (perform op) w)).
    by apply IH, perform_default_bucket. }
  intros Hops. apply H; [done|].
  unfold liveRegistry. cbn. destruct canUseDOM; by eexists.
Qed.
End default_bucket.

(** * The claims on concrete inputs *)

(** The modelled [mergeDeep] on nested objects: the source wins key by key,
    objects are merged, keys of the target alone stay. *)
Example mergeDeep_spec_nested :
  mergeDeep_spec
    (VObj {[ "color" := VStr "blue"; "font" := VObj {[ "size" := VNum 1 ]} ]})
    (VObj {[ "color" := VStr "red"; "font" := VObj {[ "weight" := VNum 7 ]} ]})
  = VObj {[ "color" := VStr "red";
            "font" := VObj {[ "size" := VNum 1; "weight" := VNum 7 ]} ]}.
Proof. vm_compute. reflexivity. Qed.

Lemma uid_spec_inj : Inj (=) (=) uid_spec.
Proof.
  intros n m H. unfold uid_spec in H.
  apply (inj (String.app "uid_")) in H. by apply (inj pretty) in H.
Qed.

(** The scenario of C1 outside a browser, from the initial world. *)
Lemma scenario_strict_resolves_red_witness :
  nodeEnv = specEnv false false
  ∧ eval (mergeWithDefaultThemeVariables (env := nodeEnv) (Some "strict") green)
      (exec (scenario (env := nodeEnv)) initialWorld) = Some red.
Proof.
  split; [reflexivity|].
  apply (scenario_strict_resolves_red false false (env := nodeEnv) eq_refl initialWorld).
Defined.

(** [strict] is immutable in the scenario's world, and [green] has a key. *)
Lemma overrideThemeVariables_immutable_witness :
  Registry.themes (liveRegistry (env := nodeEnv) scenarioWorld) !! "strict"
    = Some strictTheme
  ∧ truthy (Theme.immutable strictTheme) = true
  ∧ has_keys green = true
  ∧ eval (overrideThemeVariables (env := nodeEnv) (Some "strict") green) scenarioWorld
    = Some red.
Proof.
  split_and!; [vm_compute; reflexivity..|].
  apply (overrideThemeVariables_immutable (env := nodeEnv) scenarioWorld "strict"
           (Registry.themes (liveRegistry (env := nodeEnv) scenarioWorld))
           strictTheme green); vm_compute; reflexivity.
Defined.

(** Overrides with a key for the component of [echoFn], against the
    immutable [strict], which keeps the style as the function returns it,
    and against the mutable [base], where the overrides win. *)
Lemma generateComponentTheme_overrides_witness :
  is_symbol (KSym 0) = true
  ∧ has_keys green = true
  ∧ eval (generateComponentTheme (env := nodeEnv) (KSym 0) (Some "strict") green)
      echoScenarioWorld = Some red
  ∧ eval (generateComponentTheme (env := nodeEnv) (KSym 0) (Some "base") green)
      echoScenarioWorld = Some green.
Proof.
  split_and!; [reflexivity..| |].
  - destruct (generateComponentTheme_overrides (env := nodeEnv) echoScenarioWorld
                (KSym 0) (Some "strict") green eq_refl eq_refl)
      as (vars & dk & comps & theme & Hv & _ & Hc & Ht & Himm & _).
    vm_compute in Hv, Hc, Ht.
    injection Hv as <-. injection Hc as <-. injection Ht as <-.
    rewrite (Himm eq_refl). vm_compute. reflexivity.
  - destruct (generateComponentTheme_overrides (env := nodeEnv) echoScenarioWorld
                (KSym 0) (Some "base") green eq_refl eq_refl)
      as (vars & dk & comps & theme & Hv & _ & Hc & Ht & _ & Hmut).
    vm_compute in Hv, Hc, Ht.
    injection Hv as <-. injection Hc as <-. injection Ht as <-.
    destruct (Hmut eq_refl) as (-> & _). vm_compute. reflexivity.
Defined.

(** A function that throws, registered under a symbol. *)
Lemma generateComponentTheme_catches_witness :
  eval (mergeWithDefaultThemeVariables (env := nodeEnv) None VUndefined) throwingWorld
    = Some (VObj ∅)
  ∧ eval (getRegisteredComponents (env := nodeEnv) None) throwingWorld
    = Some {[ KSym 0 := throwingFn ]}
  ∧ call throwingFn (VObj ∅) = Throw (VStr "boom")
  ∧ eval (generateComponentTheme (env := nodeEnv) (KSym 0) None VUndefined)
      throwingWorld = Some (VObj ∅).
Proof.
  split_and!; [vm_compute; reflexivity..|].
  destruct (generateComponentTheme_catches (env := nodeEnv) throwingWorld (KSym 0)
              None VUndefined (VObj ∅) {[ KSym 0 := throwingFn ]} throwingFn
              (VStr "boom"))
    as (dk & theme & _ & _ & _ & H & _); [vm_compute; reflexivity..|].
  exact (H eq_refl).
Defined.

(** No function under the key, the default theme not immutable. *)
Lemma generateComponentTheme_unregistered_witness :
  is_symbol (KSym 7) = true
  ∧ eval (getRegisteredComponents (env := nodeEnv) None) scenarioWorld = Some ∅
  ∧ eval (getDefaultThemeKey (env := nodeEnv)) scenarioWorld = Some "base"
  ∧ eval (getRegisteredTheme (env := nodeEnv) (Some "base") (Some Theme.empty))
      scenarioWorld = Some (Some baseTheme)
  ∧ truthy (Theme.immutable baseTheme) = false
  ∧ eval (generateComponentTheme (env := nodeEnv) (KSym 7) None green) scenarioWorld
    = Some green.
Proof.
  split_and!; [vm_compute; reflexivity..|].
  apply (generateComponentTheme_unregistered (env := nodeEnv) scenarioWorld (KSym 7)
           None green ∅ "base" baseTheme); vm_compute; reflexivity.
Defined.

(** The explicit default key of the scenario's world. *)
Lemma getDefaultThemeKey_preference_witness :
  Registry.defaultThemeKey (liveRegistry (env := nodeEnv) scenarioWorld) = Some "base"
  ∧ eval (getDefaultThemeKey (env := nodeEnv)) scenarioWorld = Some "base"
  ∧ eval (getDefaultThemeKey (env := nodeEnv))
      (exec (clearRegistry (env := nodeEnv)) scenarioWorld) = Some DEFAULT_THEME_KEY.
Proof.
  split; [vm_compute; reflexivity|].
  destruct (getDefaultThemeKey_preference (env := nodeEnv) scenarioWorld)
    as (H1 & _ & _ & _ & H5).
  split; [|exact H5]. apply H1; [vm_compute; reflexivity|discriminate].
Defined.

(** A keyless theme registered in the initial world. *)
Lemma registerTheme_keyless_witness :
  truthy_key (Theme.key keylessTheme) = false
  ∧ Registry.registered
      (liveRegistry (env := nodeEnv)
         (exec (registerTheme (env := nodeEnv) keylessTheme) initialWorld))
    = Registry.registered (liveRegistry (env := nodeEnv) initialWorld) ++ ["uid_0"].
Proof.
  split; [reflexivity|].
  apply (registerTheme_keyless (env := nodeEnv) initialWorld keylessTheme
           uid_spec_inj eq_refl).
Defined.


(** C6, counterexample: the theme registered without a key is stored
    as it was passed, under the generated identifier, and its [key] is
    still absent. *)
Lemma registerTheme_key_stays_absent :
  Registry.registered
    (liveRegistry (env := nodeEnv)
       (exec (registerTheme (env := nodeEnv) keylessTheme) initialWorld)) = ["uid_0"]
  ∧ Registry.themes
      (liveRegistry (env := nodeEnv)
         (exec (registerTheme (env := nodeEnv) keylessTheme) initialWorld)) !! "uid_0"
    = Some keylessTheme
  ∧ Theme.key keylessTheme = None
  ∧ Theme.key keylessTheme ≠ Some "uid_0".
Proof. split_and!; [vm_compute; reflexivity..|discriminate]. Qed.

(** C7, counterexample: registering a key twice leaves it twice in
    [registered]. *)
Lemma registered_keeps_duplicates :
  Registry.registered
    (liveRegistry (env := nodeEnv)
       (run (env := nodeEnv) [RegisterTheme baseTheme; RegisterTheme baseTheme]
          initialWorld)) = ["base"; "base"]
  ∧ ¬ NoDup (Registry.registered
               (liveRegistry (env := nodeEnv)
                  (run (env := nodeEnv)
                     [RegisterTheme baseTheme; RegisterTheme baseTheme]
                     initialWorld))).
Proof.
  split; [vm_compute; reflexivity|].
  change (¬ NoDup ["base"; "base"]).
  intros [Hin _]%NoDup_cons. apply Hin, list_elem_of_singleton. reflexivity.
Qed.

(** C8, counterexample: a function registered under a string key is in
    the combined bucket and missing from what [generateTheme] returns, and
    with a throwing function under a symbol [generateTheme] returns
    nothing. *)
Lemma generateTheme_omits_and_throws :
  (eval (getRegisteredComponents (env := nodeEnv) None) stringKeyWorld
     = Some {[ KStr "Button" := echoFn ]}
   ∧ eval (generateTheme (env := nodeEnv) None VUndefined) stringKeyWorld = Some ∅)
  ∧ (eval (getRegisteredComponents (env := nodeEnv) None) throwingWorld
       = Some {[ KSym 0 := throwingFn ]}
     ∧ eval (generateTheme (env := nodeEnv) None VUndefined) throwingWorld = None).
Proof. split_and!; vm_compute; reflexivity. Qed.

(** * Further properties of the registry store *)

Section store.
Context `{env : Env}.

(** X1.  [setRegistry] then [getRegistry] hands back the registry that was
    set, in a browser and outside; the module variable holds it, and in a
    browser [window] refers to the same object, while outside a browser
    [window] is left alone. *)
Theorem setRegistry_getRegistry (w : World) (registry : Registry.t) :
  eval getRegistry (exec (setRegistry registry) w) = Some registry
  ∧ GLOBAL_THEME_REGISTRY (exec (setRegistry registry) w) = registry
  ∧ window_GLOBAL_THEME_REGISTRY (exec (setRegistry registry) w)
    = (if canUseDOM then SlotSameObject else window_GLOBAL_THEME_REGISTRY w)
  ∧ diagnostics (exec (setRegistry registry) w) = diagnostics w.
Proof.
  rewrite eval_getRegistry.
  destruct (liveRegistry_setRegistry registry w) as [-> _].
  unfold exec, setRegistry. cbn. by destruct canUseDOM.
Qed.


(** Outside a browser a computation built from the steps below leaves
    [window] as it is. *)
Lemma window_bind {A B} (m : M A) (k : A → M B) :
  (∀ w, window_GLOBAL_THEME_REGISTRY (exec m w) = window_GLOBAL_THEME_REGISTRY w) →
  (∀ a w, window_GLOBAL_THEME_REGISTRY (exec (k a) w)
          = window_GLOBAL_THEME_REGISTRY w) →
  ∀ w, window_GLOBAL_THEME_REGISTRY (exec (bind m k) w)
       = window_GLOBAL_THEME_REGISTRY w.
Proof.
  intros Hm Hk w. specialize (Hm w). specialize (Hk) . unfold exec, bind in *.
  destruct (m w) as [[a|e] w1]; cbn in *; [|done].
  by rewrite (Hk a w1).
Qed.

Lemma window_pure {A} (x : res A) (f : World → World) :
  (∀ w, window_GLOBAL_THEME_REGISTRY (f w) = window_GLOBAL_THEME_REGISTRY w) →
  ∀ w, window_GLOBAL_THEME_REGISTRY (exec (λ w, (x, f w)) w)
       = window_GLOBAL_THEME_REGISTRY w.
Proof. intros Hf w. apply Hf. Qed.

Lemma window_warning (c : bool) (d : diag) (w : World) :
  window_GLOBAL_THEME_REGISTRY (exec (warning c d) w) = window_GLOBAL_THEME_REGISTRY w.
Proof. unfold exec, warning. by destruct c. Qed.

Lemma window_getRegistry (w : World) :
  canUseDOM = false →
  window_GLOBAL_THEME_REGISTRY (exec getRegistry w) = window_GLOBAL_THEME_REGISTRY w.
Proof. intros Hdom. unfold exec, getRegistry. by rewrite Hdom. Qed.

Lemma window_mutateRegistry (f : Registry.t → Registry.t) (w : World) :
  canUseDOM = false →
  window_GLOBAL_THEME_REGISTRY (exec (mutateRegistry f) w)
  = window_GLOBAL_THEME_REGISTRY w.
Proof. intros Hdom. unfold exec, mutateRegistry. by rewrite Hdom. Qed.

Ltac window_go Hdom :=
  repeat first
    [ apply window_warning
    | apply window_getRegistry; exact Hdom
    | apply window_mutateRegistry; exact Hdom
    | apply window_bind; [intros ? | intros ? ?]
    | progress (intros ?)
    | done ].

Lemma window_getDefaultThemeKey (w : World) :
  canUseDOM = false →
  window_GLOBAL_THEME_REGISTRY (exec getDefaultThemeKey w)
  = window_GLOBAL_THEME_REGISTRY w.
Proof. intros Hdom. revert w. unfold getDefaultThemeKey. window_go Hdom. Qed.

Lemma window_getRegisteredTheme themeKey fallback (w : World) :
  canUseDOM = false →
  window_GLOBAL_THEME_REGISTRY (exec (getRegisteredTheme themeKey fallback) w)
  = window_GLOBAL_THEME_REGISTRY w.
Proof.
  intros Hdom. revert w. unfold getRegisteredTheme.
  apply window_bind; [intros w; by apply window_getRegistry|intros r w].
  revert w. apply window_bind; [|done].
  intros w. destruct fallback; [done|apply window_warning].
Qed.

Lemma window_overrideThemeVariables themeKey overrides (w : World) :
  canUseDOM = false →
  window_GLOBAL_THEME_REGISTRY (exec (overrideThemeVariables themeKey overrides) w)
  = window_GLOBAL_THEME_REGISTRY w.
Proof.
  intros Hdom. revert w. unfold overrideThemeVariables.
  apply window_bind; [intros w; by apply window_getRegisteredTheme|intros th w].
  revert w. apply window_bind; [intros w; by destruct th|intros th' w].
  destruct (_ && _); [|done]. revert w. window_go Hdom.
Qed.

Lemma window_mergeWithDefaultThemeVariables themeKey overrides (w : World) :
  canUseDOM = false →
  window_GLOBAL_THEME_REGISTRY
    (exec (mergeWithDefaultThemeVariables themeKey overrides) w)
  = window_GLOBAL_THEME_REGISTRY w.
Proof.
  intros Hdom. revert w. unfold mergeWithDefaultThemeVariables.
  apply window_bind; [intros w; by apply window_getRegistry|intros r w].
  revert w. apply window_bind; [intros w; by apply window_getDefaultThemeKey|].
  intros dk w. destruct (truthy_key themeKey).
  - revert w. apply window_bind; intros; by apply window_overrideThemeVariables.
  - by apply window_overrideThemeVariables.
Qed.

Lemma window_effectiveKey themeKey (w : World) :
  canUseDOM = false →
  window_GLOBAL_THEME_REGISTRY
    (exec (if truthy_key themeKey then ret (propertyName themeKey)
           else getDefaultThemeKey) w)
  = window_GLOBAL_THEME_REGISTRY w.
Proof.
  intros Hdom. destruct (truthy_key themeKey); [done|].
  by apply window_getDefaultThemeKey.
Qed.

Lemma window_getRegisteredComponents themeKey (w : World) :
  canUseDOM = false →
  window_GLOBAL_THEME_REGISTRY (exec (getRegisteredComponents themeKey) w)
  = window_GLOBAL_THEME_REGISTRY w.
Proof.
  intros Hdom. revert w. unfold getRegisteredComponents.
  apply window_bind; [intros w; by apply window_getRegistry|intros r w].
  revert w. apply window_bind; [intros w; by apply window_effectiveKey|done].
Qed.

(** X3.  Outside a browser no call touches [window]: whatever the
    operation, [window.GLOBAL_THEME_REGISTRY] is after it what it was
    before. *)
Theorem perform_keeps_window (op : operation) (w : World) :
  canUseDOM = false →
  window_GLOBAL_THEME_REGISTRY (exec (perform op) w)
  = window_GLOBAL_THEME_REGISTRY w.
Proof.
  intros Hdom.
  destruct op as [theme|k o i|K fn|registry| |tk o|K tk o|tk]; cbn [perform];
    rewrite ?exec_discard; revert w.
  - unfold registerTheme.
    apply window_bind; [intros w; by apply window_getRegistry|intros r].
    apply window_bind; [intros w; by destruct (truthy_key _)|intros key w].
    by apply window_mutateRegistry.
  - unfold setDefaultTheme. window_go Hdom.
  - unfold registerComponentTheme.
    apply window_bind; [intros w; by apply window_getRegistry|intros r w].
    destruct fn as [fn|v]; [|done].
    destruct (Registry.components r !! DEFAULT_THEME_KEY); [|done].
    revert w. apply window_bind; intros; by apply window_mutateRegistry.
  - intros w. unfold exec, setRegistry. by rewrite Hdom.
  - intros w. unfold exec, clearRegistry, setRegistry. by rewrite Hdom.
  - unfold generateTheme.
    apply window_bind; [intros w; by apply window_getRegistry|intros r].
    apply window_bind; [intros w; apply window_warning|intros ?].
    apply window_bind; [intros w; by apply window_getRegisteredComponents|].
    intros comps.
    apply window_bind;
      [intros w; by apply window_mergeWithDefaultThemeVariables|done].
  - unfold generateComponentTheme.
    apply window_bind;
      [intros w; by apply window_mergeWithDefaultThemeVariables|intros vars].
    apply window_bind; [intros w; by apply window_effectiveKey|intros t].
    apply window_bind; [intros w; by apply window_getRegisteredComponents|].
    intros comps.
    apply window_bind.
    { intros w. destruct (comps !! K) as [fn|]; [|done].
      destruct (call fn vars); [done|].
      revert w. apply window_bind; [|done].
      intros w. unfold exec, console_error. by destruct production. }
    intros style.
    apply window_bind; [intros w; by apply window_getRegisteredTheme|intros th].
    apply window_bind; [intros w; by destruct th|intros th' w].
    destruct (_ && _); [|done]. revert w. window_go Hdom.
  - unfold getTheme.
    apply window_bind; [intros w; by apply window_getRegisteredTheme|intros th].
    apply window_bind; [intros w; by destruct th|done].
Qed.
End store.

(** * Further properties of themes *)

Section themes.
Context `{env : Env}.

Lemma eval_getTheme (w : World) (themeKey : option string) :
  eval (getTheme themeKey) w
  = Some (or_empty (Theme.variables (themeAt (liveRegistry w) themeKey))).
Proof. by eapply reads_eval; [apply reads_getTheme|]. Qed.

Lemma eval_getDefaultThemeKey (w : World) :
  eval getDefaultThemeKey w = Some (defaultKey (liveRegistry w)).
Proof. by eapply reads_eval; [apply reads_getDefaultThemeKey|]. Qed.


(** X5.  [getTheme] for a key no theme is registered under returns [{}]:
    it does not throw, emits no diagnostic and leaves the registry as it
    is. *)
Theorem getTheme_missing (w : World) (themeKey : option string)
    (themes : gmap string Theme.t) :
  eval getRegisteredThemes w = Some themes →
  themes !! propertyName themeKey = None →
  eval (getTheme themeKey) w = Some (VObj ∅)
  ∧ diagnostics (exec (getTheme themeKey) w) = diagnostics w
  ∧ eval getRegistry (exec (getTheme themeKey) w) = eval getRegistry w.
Proof.
  rewrite eval_getRegisteredThemes. intros [= <-] Hk.
  destruct (reads_exec _ _ _ w (reads_getTheme themeKey)) as (Hl & _ & Hd).
  rewrite eval_getTheme, !eval_getRegistry, Hl, Hd, app_nil_r.
  unfold themeAt. by rewrite Hk.
Qed.



Lemma setDefaultTheme_diagnostics (themeKey : string) (overrides immutable : value)
    (w : World) :
  diagnostics (exec (setDefaultTheme themeKey overrides immutable) w)
  = diagnostics w
    ++ match Registry.themes (liveRegistry w) !! themeKey with
       | Some _ => []
       | None => [ThemeNotFound (Some themeKey)]
       end.
Proof.
  unfold exec, setDefaultTheme, bind at 1.
  destruct (reads_getRegistry w) as (w1 & -> & R1 & U1 & D1). cbv beta iota.
  rewrite app_nil_r in D1. unfold bind at 1.
  destruct (reads_warning
              (bool_decide (is_Some (Registry.themes (liveRegistry w) !! themeKey)))
              (ThemeNotFound (Some themeKey)) w1) as (w2 & -> & R2 & U2 & D2).
  cbv beta iota. unfold bind, ret.
  destruct (mutateRegistry_run
    (λ r, {| Registry.defaultThemeKey := Some themeKey;
             Registry.components := Registry.components r;
             Registry.themes :=
               <[themeKey := Theme.with_immutable
                               (Registry.themes (liveRegistry w) !! themeKey)
                               immutable]> (Registry.themes r);
             Registry.registered := Registry.registered r;
             Registry.overrides := overrides |}) w2)
    as (w3 & -> & R3 & U3 & D3).
  cbn [snd]. rewrite D3, D2, D1.
  by destruct (Registry.themes (liveRegistry w) !! themeKey).
Qed.

(** X7.  [setDefaultTheme] on a registered theme: the key becomes what
    [getDefaultThemeKey] returns, the stored theme gets the flag and keeps
    its key and variables, so [getTheme] returns what it returned before;
    the other themes and [registered] stay, the overrides are stored on
    the registry, the stored theme is returned and nothing is reported. *)
Theorem setDefaultTheme_registered (w : World) (k : string) (T : Theme.t)
    (O imm : value) :
  Registry.themes (liveRegistry w) !! k = Some T → k ≠ "" →
  let stored := {| Theme.key := Theme.key T; Theme.variables := Theme.variables T;
                   Theme.immutable := imm |} in
  let w' := exec (setDefaultTheme k O imm) w in
  eval (setDefaultTheme k O imm) w = Some stored
  ∧ eval getDefaultThemeKey w' = Some k
  ∧ Registry.themes (liveRegistry w') = <[k := stored]> (Registry.themes (liveRegistry w))
  ∧ eval (getTheme (Some k)) w' = eval (getTheme (Some k)) w
  ∧ Registry.registered (liveRegistry w') = Registry.registered (liveRegistry w)
  ∧ Registry.overrides (liveRegistry w') = O
  ∧ diagnostics w' = diagnostics w.
Proof.
  intros HT Hk stored w'. subst w'.
  pose proof (setDefaultTheme_diagnostics k O imm w) as D.
  destruct (setDefaultTheme_run k O imm w) as (w' & E & R & U).
  rewrite HT in E, R, D. cbn in E, R. rewrite app_nil_r in D.
  unfold eval at 1. rewrite E.
  assert (exec (setDefaultTheme k O imm) w = w') as Hw by (unfold exec; by rewrite E).
  rewrite Hw in *. rewrite eval_getDefaultThemeKey, !eval_getTheme.
  unfold themeAt. rewrite R. cbn. rewrite lookup_insert_eq, HT. cbn.
  split_and!; try done. unfold defaultKey. cbn. by destruct k.
Qed.


(** X9.  Once a theme is registered or a default is set, registering
    further themes does not change the default key: without an explicit
    default, the first registered theme stays the default. *)
Theorem registerTheme_keeps_default (w : World) (theme : Theme.t) :
  truthy_key (Registry.defaultThemeKey (liveRegistry w)) = true
  ∨ Registry.registered (liveRegistry w) ≠ [] →
  eval getDefaultThemeKey (exec (registerTheme theme) w) = eval getDefaultThemeKey w.
Proof.
  intros H. rewrite !eval_getDefaultThemeKey.
  destruct (registerTheme_run theme w) as (w' & E & R & _).
  assert (exec (registerTheme theme) w = w') as -> by (unfold exec; by rewrite E).
  rewrite R. unfold defaultKey. cbn.
  destruct (Registry.defaultThemeKey (liveRegistry w)) as [[|c s]|]; try done;
    destruct H as [H|H]; try done;
    by destruct (Registry.registered (liveRegistry w)).
Qed.

(** X10.  On a registry without a default key and without registered
    themes, the theme registered first becomes the default. *)
Theorem registerTheme_first_is_default (w : World) (theme : Theme.t) (k : string) :
  truthy_key (Registry.defaultThemeKey (liveRegistry w)) = false →
  Registry.registered (liveRegistry w) = [] →
  Theme.key theme = Some k → k ≠ "" →
  eval getDefaultThemeKey w = Some DEFAULT_THEME_KEY
  ∧ eval getDefaultThemeKey (exec (registerTheme theme) w) = Some k.
Proof.
  intros Hd Hr Hkey Hk. rewrite !eval_getDefaultThemeKey.
  destruct (registerTheme_run theme w) as (w' & E & R & _).
  assert (exec (registerTheme theme) w = w') as -> by (unfold exec; by rewrite E).
  rewrite R. unfold defaultKey. cbn. rewrite Hr, Hkey. cbn.
  destruct (Registry.defaultThemeKey (liveRegistry w)) as [[|c s]|]; try done;
    by destruct k.
Qed.
End themes.

(** * Further properties of the variable resolution *)

Section resolution.
Context `{env : Env}.

(** X11.  [overrideThemeVariables] merges whenever the overrides have no
    key or the theme is not immutable, a theme that is missing included:
    the result is [mergeDeep(theme.variables, overrides)], nothing is
    reported and the registry stays as it is. *)
Theorem overrideThemeVariables_merges (w : World) (themeKey : option string)
    (O : value) (theme : Theme.t) :
  eval (getRegisteredTheme themeKey (Some Theme.empty)) w = Some (Some theme) →
  has_keys O = false ∨ truthy (Theme.immutable theme) = false →
  eval (overrideThemeVariables themeKey O) w
    = Some (mergeDeep (Theme.variables theme) O)
  ∧ diagnostics (exec (overrideThemeVariables themeKey O) w) = diagnostics w
  ∧ eval getRegistry (exec (overrideThemeVariables themeKey O) w)
    = eval getRegistry w.
Proof.
  intros HT%eval_themeAt Hor.
  assert (blocked (liveRegistry w) themeKey O = false) as Hb.
  { unfold blocked. rewrite HT. destruct Hor as [-> | ->]; [done|].
    apply andb_false_r. }
  destruct (reads_exec _ _ _ w (reads_overrideThemeVariables themeKey O))
    as (Hl & _ & Hd).
  rewrite !eval_getRegistry, Hl, Hd. unfold overridden_log. rewrite Hb, app_nil_r.
  split_and!; try done.
  eapply reads_eval; [apply reads_overrideThemeVariables|].
  cbv beta. unfold overridden. by rewrite Hb, HT.
Qed.

Lemma resolved_agree (r1 r2 : Registry.t) (themeKey : option string) (O : value) :
  Registry.defaultThemeKey r1 = Registry.defaultThemeKey r2 →
  Registry.themes r1 = Registry.themes r2 →
  Registry.registered r1 = Registry.registered r2 →
  (truthy_key themeKey = false → Registry.overrides r1 = Registry.overrides r2) →
  resolved r1 themeKey O = resolved r2 themeKey O
  ∧ resolved_log r1 themeKey O = resolved_log r2 themeKey O.
Proof.
  intros Hd Ht Hr Ho.
  unfold resolved, resolved_log, stage1, overridden, overridden_log, blocked,
    themeAt, defaultKey.
  rewrite Hd, Ht, Hr. destruct (truthy_key themeKey); [done|]. by rewrite Ho.
Qed.

(** X12.  With a theme key, [mergeWithDefaultThemeVariables] reads the
    themes, the default key and [registered] only: the default overrides
    that [setDefaultTheme] stored on the registry, and the components,
    play no part in the result. *)
Theorem mergeWithDefaultThemeVariables_ignores_overrides (w1 w2 : World)
    (themeKey : option string) (O : value) :
  truthy_key themeKey = true →
  Registry.defaultThemeKey (liveRegistry w1) = Registry.defaultThemeKey (liveRegistry w2) →
  Registry.themes (liveRegistry w1) = Registry.themes (liveRegistry w2) →
  Registry.registered (liveRegistry w1) = Registry.registered (liveRegistry w2) →
  eval (mergeWithDefaultThemeVariables themeKey O) w1
  = eval (mergeWithDefaultThemeVariables themeKey O) w2.
Proof.
  intros Htk Hd Ht Hr.
  destruct (resolved_agree (liveRegistry w1) (liveRegistry w2) themeKey O)
    as [Hres _]; [done..|by rewrite Htk|].
  rewrite (reads_eval _ _ _ w1 (resolved (liveRegistry w1) themeKey O)
             (reads_mergeWithDefaultThemeVariables themeKey O)) by done.
  rewrite (reads_eval _ _ _ w2 (resolved (liveRegistry w2) themeKey O)
             (reads_mergeWithDefaultThemeVariables themeKey O)) by done.
  by rewrite Hres.
Qed.

(** X13.  An immutable default theme has the last word: when the
    variables resolved for the named theme (from the overrides, [{}] when
    they are left out) have at least one key, the
    second stage is blocked, the diagnostic names the default theme, and
    the result is the variables of the default theme, with nothing of the
    named theme in them. *)
Theorem mergeWithDefaultThemeVariables_default_immutable (w : World)
    (themeKey : option string) (O v : value) (dk : string) (D : Theme.t) :
  truthy_key themeKey = true →
  eval getDefaultThemeKey w = Some dk →
  Registry.themes (liveRegistry w) !! dk = Some D →
  truthy (Theme.immutable D) = true →
  eval (overrideThemeVariables themeKey (default_empty O)) w = Some v →
  has_keys v = true →
  eval (mergeWithDefaultThemeVariables themeKey O) w = Some (Theme.variables D)
  ∧ ThemeImmutable (Some dk) v
    ∈ diagnostics (exec (mergeWithDefaultThemeVariables themeKey O) w).
Proof.
  intros Htk Hdk%eval_defaultKey HD Himm Hv Hkeys.
  eapply reads_eval_inv in Hv; [|apply reads_overrideThemeVariables].
  cbv beta in Hv. injection Hv as Hv.
  assert (stage1 (liveRegistry w) themeKey O = v) as Hst
    by (unfold stage1; by rewrite Htk).
  assert (themeAt (liveRegistry w) (Some dk) = D) as HTd
    by (unfold themeAt; cbn; by rewrite HD).
  assert (blocked (liveRegistry w) (Some dk) v = true) as Hb
    by (unfold blocked; by rewrite HTd, Hkeys, Himm).
  split.
  - eapply reads_eval; [apply reads_mergeWithDefaultThemeVariables|].
    cbv beta. unfold resolved, overridden. by rewrite Hst, Hdk, Hb, HTd.
  - destruct (reads_exec _ _ _ w
                (reads_mergeWithDefaultThemeVariables themeKey O)) as (_ & _ & ->).
    unfold resolved_log. rewrite Hst, Hdk. unfold overridden_log at 2.
    rewrite Hb. rewrite !elem_of_app. right; right.
    by apply list_elem_of_singleton.
Qed.
End resolution.

Section default_overrides.
Context `{env : Env}.

(** X14.  [setDefaultTheme] then [mergeWithDefaultThemeVariables] without
    a theme key (or with the empty string): for a registered theme made
    the mutable default, the result is its variables merged with the
    default overrides just stored, merged in turn with the overrides of
    the call. *)
Theorem setDefaultTheme_then_merge (w : World) (k : string) (T : Theme.t)
    (D imm O : value) :
  Registry.themes (liveRegistry w) !! k = Some T → k ≠ "" →
  truthy imm = false →
  eval (mergeWithDefaultThemeVariables None O) (exec (setDefaultTheme k D imm) w)
    = Some (mergeDeep (Theme.variables T)
              (mergeDeep (or_empty D) (default_empty O)))
  ∧ eval (mergeWithDefaultThemeVariables (Some "") O)
      (exec (setDefaultTheme k D imm) w)
    = eval (mergeWithDefaultThemeVariables None O)
        (exec (setDefaultTheme k D imm) w).
Proof.
  intros HT Hk Himm.
  destruct (setDefaultTheme_run k D imm w) as (w' & E & R & _).
  assert (exec (setDefaultTheme k D imm) w = w') as -> by (unfold exec; by rewrite E).
  rewrite HT in R. cbn in R.
  assert (∀ tk, truthy_key tk = false →
            eval (mergeWithDefaultThemeVariables tk O) w'
            = Some (mergeDeep (Theme.variables T)
                      (mergeDeep (or_empty D) (default_empty O)))) as H.
  { intros tk Htk.
    eapply reads_eval; [apply reads_mergeWithDefaultThemeVariables|].
    cbv beta. unfold resolved, stage1, overridden, blocked, themeAt, defaultKey.
    rewrite Htk, R. destruct k as [|c s]; [done|]. cbn.
    rewrite lookup_insert_eq. cbn. by rewrite Himm, andb_false_r. }
  by rewrite !H.
Qed.
End default_overrides.

(** * Further properties of the component functions *)

Section components.
Context `{env : Env}.

(** X15.  [registerComponentTheme] with something that is not a function
    does nothing: it returns, and the registry and the diagnostics are
    what they were. *)
Theorem registerComponentTheme_not_function (w : World) (K : propkey) (v : value) :
  eval (registerComponentTheme K (ANotFunction v)) w = Some tt
  ∧ eval getRegistry (exec (registerComponentTheme K (ANotFunction v)) w)
    = eval getRegistry w
  ∧ diagnostics (exec (registerComponentTheme K (ANotFunction v)) w) = diagnostics w.
Proof.
  rewrite !eval_getRegistry. unfold eval, exec, registerComponentTheme, bind.
  destruct (reads_getRegistry w) as (w1 & -> & R1 & _ & D1). cbn.
  by rewrite R1, D1, app_nil_r.
Qed.

Lemma registerForTheme_frame (K K' : propkey) (fn : FunctionObject)
    (comps : gmap string (gmap propkey FunctionObject)) (tk t : string) :
  K' ≠ K →
  default ∅ (registerForTheme K fn comps tk !! t) !! K'
  = default ∅ (comps !! t) !! K'.
Proof.
  intros Hne. destruct (decide (tk = t)) as [->|Hkt].
  - unfold registerForTheme. rewrite lookup_insert_eq.
    change (default ∅ (Some ?b)) with b.
    rewrite (lookup_insert_ne _ K K') by done.
    destruct (comps !! t) eqn:E; cbv beta iota; [by rewrite E|].
    by rewrite lookup_insert_eq.
  - by rewrite registerForTheme_other.
Qed.

Lemma foldl_registerForTheme_frame (K K' : propkey) (fn : FunctionObject)
    (keys : list string) (comps : gmap string (gmap propkey FunctionObject))
    (t : string) :
  K' ≠ K →
  default ∅ (foldl (registerForTheme K fn) comps keys !! t) !! K'
  = default ∅ (comps !! t) !! K'.
Proof.
  intros Hne. revert comps. induction keys as [|key keys IH]; intros comps; [done|].
  cbn [foldl]. by rewrite IH, registerForTheme_frame.
Qed.


(** What [registerComponentTheme] leaves alone, whatever its arguments:
    every field but [components], and in every bucket the entries of the
    other component keys. *)
Lemma registerComponentTheme_others (K : propkey) (arg : argument) (w : World) :
  ∃ g, liveRegistry (exec (registerComponentTheme K arg) w)
       = set_components g (liveRegistry w)
       ∧ ∀ K' t, K' ≠ K →
           default ∅ (g (Registry.components (liveRegistry w)) !! t) !! K'
           = default ∅ (Registry.components (liveRegistry w) !! t) !! K'.
Proof.
  assert (liveRegistry w = set_components id (liveRegistry w)) as Hid
    by (by destruct (liveRegistry w)).
  destruct arg as [fn|v].
  - destruct (Registry.components (liveRegistry w) !! DEFAULT_THEME_KEY)
      as [fallback|] eqn:Hd.
    + destruct (registerComponentTheme_run K fn w fallback Hd) as (w' & E & R & _).
      unfold exec. rewrite E. eexists. split; [exact R|].
      intros K' t Hne. cbv beta. rewrite foldl_registerForTheme_frame by done.
      destruct (decide (DEFAULT_THEME_KEY = t)) as [<-|Hdt].
      * rewrite lookup_insert_eq, Hd. cbn. by rewrite lookup_insert_ne.
      * by rewrite lookup_insert_ne.
    + exists id. unfold exec, registerComponentTheme, bind.
      destruct (reads_getRegistry w) as (w1 & -> & R1 & _).
      cbv beta iota. rewrite Hd. unfold throw. cbn. by rewrite R1.
  - exists id. unfold exec, registerComponentTheme, bind.
    destruct (reads_getRegistry w) as (w1 & -> & R1 & _). cbn. by rewrite R1.
Qed.

Lemma set_components_views (g : gmap string (gmap propkey FunctionObject) →
                                gmap string (gmap propkey FunctionObject))
    (r : Registry.t) (themeKey : option string) (O : value) :
  defaultKey (set_components g r) = defaultKey r
  ∧ effectiveKey (set_components g r) themeKey = effectiveKey r themeKey
  ∧ resolved (set_components g r) themeKey O = resolved r themeKey O
  ∧ resolved_log (set_components g r) themeKey O = resolved_log r themeKey O
  ∧ (∀ k, themeAt (set_components g r) k = themeAt r k)
  ∧ (∀ k, blocked (set_components g r) k O = blocked r k O).
Proof.
  destruct (resolved_agree (set_components g r) r themeKey O) as [? ?]; done.
Qed.

(** X16.  Registering a function for one component changes nothing for
    the others: whatever is registered under [K], and for every theme
    key and overrides, [generateComponentTheme] of another component
    returns what it returned before, and the themes and the default key
    are untouched. *)
Theorem registerComponentTheme_other_components (w : World) (K K' : propkey)
    (arg : argument) (themeKey : option string) (O : value) :
  K' ≠ K →
  eval (generateComponentTheme K' themeKey O)
    (exec (registerComponentTheme K arg) w)
  = eval (generateComponentTheme K' themeKey O) w
  ∧ eval getRegisteredThemes (exec (registerComponentTheme K arg) w)
    = eval getRegisteredThemes w
  ∧ eval getDefaultThemeKey (exec (registerComponentTheme K arg) w)
    = eval getDefaultThemeKey w.
Proof.
  intros Hne.
  destruct (registerComponentTheme_others K arg w) as (g & R & Hg).
  set (w' := exec (registerComponentTheme K arg) w) in *.
  destruct (set_components_views g (liveRegistry w) themeKey VUndefined)
    as (Hdk & Hek & Hres & _ & Hth & _).
  destruct (set_components_views g (liveRegistry w) themeKey O)
    as (_ & _ & _ & _ & _ & Hbl).
  rewrite !eval_getRegisteredThemes, !eval_getDefaultThemeKey, R, Hdk.
  split_and!; [|by destruct (liveRegistry w)|done].
  assert (bucket (liveRegistry w') themeKey !! K'
          = bucket (liveRegistry w) themeKey !! K') as Hb.
  { unfold bucket. rewrite R, Hek. cbn.
    apply option_eq. intros fn. rewrite !lookup_union_Some_raw, !Hg by done.
    done. }
  rewrite (reads_eval _ _ _ w' _ (reads_generateComponentTheme K' themeKey O) eq_refl).
  rewrite (reads_eval _ _ _ w _ (reads_generateComponentTheme K' themeKey O) eq_refl).
  cbv beta zeta. by rewrite Hb, R, Hek, Hres, Hbl.
Qed.

End components.

Section generation.
Context `{env : Env}.

(** X18.  Every own property of the registered function counts as a theme
    key, a function or not (the component key is a symbol, the property
    is not named like a member of [Object.prototype], and neither the
    function nor [components] has a property named [hasOwnProperty], the
    method the registration loop calls on [components]): for a property that is not a function,
    [registerComponentTheme] still opens a bucket under its name, and the
    wrapped function filed there behaves as the function itself, so
    [generateComponentTheme] for that name returns a copy of what the
    function returns. *)
Theorem registerComponentTheme_value_property (w : World) (K : propkey)
    (fn : FunctionObject) (themeKey : string) (v : value)
    (fallback : gmap propkey FunctionObject) :
  is_symbol K = true →
  truthy_key (Some themeKey) = true →
  inherited themeKey = false →
  properties fn !! themeKey = Some (PValue v) →
  properties fn !! "hasOwnProperty" = None →
  Registry.components (liveRegistry w) !! DEFAULT_THEME_KEY = Some fallback →
  Registry.components (liveRegistry w) !! "hasOwnProperty" = None →
  (∃ b, Registry.components
          (liveRegistry (exec (registerComponentTheme K (AFunction fn)) w))
        !! themeKey = Some b
        ∧ b !! K = Some (makeComponentTheme fn themeKey))
  ∧ ∃ vars,
      eval (mergeWithDefaultThemeVariables (Some themeKey) VUndefined)
        (exec (registerComponentTheme K (AFunction fn)) w) = Some vars
      ∧ ∀ style, call fn vars = Ok style →
          eval (generateComponentTheme K (Some themeKey) VUndefined)
            (exec (registerComponentTheme K (AFunction fn)) w)
          = Some (VObj (ownProps style)).
Proof.
  intros _ Htk _ Hprop _ Hd _.
  destruct (registerComponentTheme_run K fn w fallback Hd) as (w' & E & R & _).
  assert (exec (registerComponentTheme K (AFunction fn)) w = w') as ->
    by (unfold exec; by rewrite E).
  destruct (foldl_registerForTheme K fn (map_to_list (properties fn)).*1
              (<[DEFAULT_THEME_KEY := <[K := fn]> fallback]>
                 (Registry.components (liveRegistry w))) themeKey)
    as (bk & Hbk & HK).
  { apply list_elem_of_fmap. exists (themeKey, PValue v).
    split; [done|]. by apply elem_of_map_to_list. }
  split.
  { exists bk. rewrite R. by cbn. }
  exists (resolved (liveRegistry w') (Some themeKey) VUndefined). split.
  { by eapply reads_eval; [apply reads_mergeWithDefaultThemeVariables|]. }
  intros style Hcall.
  eapply reads_eval; [apply reads_generateComponentTheme|].
  cbv beta zeta.
  assert (blocked (liveRegistry w')
            (Some (effectiveKey (liveRegistry w') (Some themeKey))) VUndefined
          = false) as -> by done.
  assert (bucket (liveRegistry w') (Some themeKey) !! K
          = Some (makeComponentTheme fn themeKey)) as ->.
  { unfold bucket, effectiveKey. rewrite key_or_Some by done.
    rewrite R. cbn. rewrite Hbk. cbn. by apply lookup_union_Some_l. }
  cbn. rewrite Hcall, Hprop. unfold spread. cbn. by rewrite (left_id_L ∅ (∪)).
Qed.

(** X19.  [generateComponentTheme] always returns a value, whatever the
    component function does, and it only reads: the registry and the
    count of [uid] calls are what they were. *)
Theorem generateComponentTheme_returns (w : World) (K : propkey)
    (themeKey : option string) (O : value) :
  (∃ style, eval (generateComponentTheme K themeKey O) w = Some style)
  ∧ eval getRegistry (exec (generateComponentTheme K themeKey O) w)
    = eval getRegistry w
  ∧ uid_calls (exec (generateComponentTheme K themeKey O) w) = uid_calls w.
Proof.
  destruct (reads_exec _ _ _ w (reads_generateComponentTheme K themeKey O))
    as (Hl & Hu & _).
  rewrite !eval_getRegistry, Hl, Hu. split; [|done].
  eexists. by eapply reads_eval; [apply reads_generateComponentTheme|].
Qed.

(** X20.  [generateTheme] reports that no themes are registered exactly
    when [registered] is empty, and goes on either way; whether it
    returns or throws, it leaves the registry as it is. *)
Theorem generateTheme_no_themes (w : World) (themeKey : option string) (O : value) :
  ∃ ds,
    diagnostics (exec (generateTheme themeKey O) w) = diagnostics w ++ ds
    ∧ (NoThemesRegistered ∈ ds ↔ Registry.registered (liveRegistry w) = [])
    ∧ eval getRegistry (exec (generateTheme themeKey O) w) = eval getRegistry w.
Proof.
  destruct (reads_exec _ _ _ w (reads_generateTheme themeKey O)) as (Hl & _ & Hd).
  eexists. split; [exact Hd|]. rewrite !eval_getRegistry, Hl. split; [|done].
  cbv beta. rewrite elem_of_app.
  assert (NoThemesRegistered ∉ resolved_log (liveRegistry w) themeKey O) as Hno.
  { unfold resolved_log, overridden_log. intros [H|H]%elem_of_app; revert H;
      repeat case_match; rewrite ?elem_of_nil, ?list_elem_of_singleton; done. }
  destruct (Registry.registered (liveRegistry w)) as [|k ks]; cbn.
  - split; [done|]. intros _. left. by apply list_elem_of_singleton.
  - split; [|done]. intros [H|H]; [by apply elem_of_nil in H|done].
Qed.

Lemma generateEach_inv (entries : list (propkey * FunctionObject))
    (variables : value) (theme m : gmap propkey value) (K : propkey)
    (style : value) :
  generateEach entries variables theme = Ok m →
  m !! K = Some style →
  theme !! K = Some style
  ∨ ∃ fn, (K, fn) ∈ entries ∧ call fn variables = Ok style.
Proof.
  revert theme. induction entries as [|[K0 fn0] entries IH]; intros theme.
  { cbn. intros [= <-]. auto. }
  cbn. destruct (call fn0 variables) as [style0|e] eqn:E0; [|done].
  intros Hm HK. destruct (IH _ Hm HK) as [Hacc|(fn & Hin & Hcall)].
  - destruct (decide (K0 = K)) as [<-|Hne].
    + rewrite lookup_insert_eq in Hacc. injection Hacc as <-.
      right. exists fn0. split; [apply elem_of_cons; by left|done].
    + rewrite lookup_insert_ne in Hacc by done. by left.
  - right. exists fn. split; [apply elem_of_cons; by right|done].
Qed.

(** X21.  [generateTheme] and [generateComponentTheme] agree: without
    overrides, what [generateTheme] holds under a component key is what
    [generateComponentTheme] returns for that component, up to the copy
    the latter makes. *)
Theorem generateTheme_generateComponentTheme (w : World) (K : propkey)
    (themeKey : option string) (m : gmap propkey value) (style : value) :
  eval (generateTheme themeKey VUndefined) w = Some m →
  m !! K = Some style →
  eval (generateComponentTheme K themeKey VUndefined) w = Some (VObj (ownProps style)).
Proof.
  intros Hm HK. eapply reads_eval_inv in Hm; [|apply reads_generateTheme].
  cbv beta in Hm.
  destruct (generateEach_inv _ _ _ _ _ _ Hm HK) as [H|(fn & Hin & Hcall)];
    [by rewrite lookup_empty in H|].
  apply elem_of_getOwnPropertySymbols in Hin as [_ Hfn].
  eapply reads_eval; [apply reads_generateComponentTheme|].
  cbv beta zeta.
  assert (blocked (liveRegistry w)
            (Some (effectiveKey (liveRegistry w) themeKey)) VUndefined = false)
    as -> by done.
  rewrite Hfn. cbn. rewrite Hcall. unfold spread. cbn.
  by rewrite (left_id_L ∅ (∪)).
Qed.

(** X22.  [clearRegistry] forgets everything: afterwards no theme is
    registered, [getTheme] returns [{}] for every key, [generateTheme]
    returns the empty mapping and reports that no themes are registered,
    and [generateComponentTheme], for a component key that is a symbol,
    returns just a copy of the overrides. *)
Theorem clearRegistry_forgets (w : World) (K : propkey) (themeKey : option string)
    (O : value) :
  is_symbol K = true →
  eval getRegisteredThemes (exec clearRegistry w) = Some ∅
  ∧ eval (getTheme themeKey) (exec clearRegistry w) = Some (VObj ∅)
  ∧ eval (generateTheme themeKey O) (exec clearRegistry w) = Some ∅
  ∧ NoThemesRegistered
    ∈ diagnostics (exec (generateTheme themeKey O) (exec clearRegistry w))
  ∧ eval (generateComponentTheme K themeKey O) (exec clearRegistry w)
    = Some (VObj (ownProps (or_empty O))).
Proof.
  intros _.
  assert (liveRegistry (exec clearRegistry w) = makeRegistry) as Hclear.
  { unfold clearRegistry. by destruct (liveRegistry_setRegistry makeRegistry w). }
  assert (∀ t, bucket makeRegistry t = ∅) as Hbucket.
  { intros t. unfold bucket. cbn. rewrite lookup_insert_eq. cbn.
    rewrite (right_id_L ∅ (∪)).
    destruct (decide (DEFAULT_THEME_KEY = effectiveKey makeRegistry t)) as [<-|Hne].
    - by rewrite lookup_insert_eq.
    - by rewrite lookup_insert_ne. }
  rewrite eval_getRegisteredThemes, eval_getTheme, Hclear.
  split_and!; try done.
  - eapply reads_eval; [apply reads_generateTheme|].
    cbv beta. rewrite Hclear, Hbucket. done.
  - destruct (reads_exec _ _ _ (exec clearRegistry w)
                (reads_generateTheme themeKey O)) as (_ & _ & ->).
    rewrite Hclear. cbn. rewrite !elem_of_app. right; left.
    by apply list_elem_of_singleton.
  - eapply reads_eval; [apply reads_generateComponentTheme|].
    cbv beta zeta. rewrite Hclear, Hbucket, lookup_empty.
    assert (blocked makeRegistry (Some (effectiveKey makeRegistry themeKey)) O = false)
      as ->.
    { unfold blocked, themeAt. cbn. rewrite lookup_empty. cbn. apply andb_false_r. }
    cbn. unfold spread. cbn. by rewrite (right_id_L ∅ (∪)).
Qed.

(** X23.  [use] of a theme made by [makeTheme]: asked for the accessible
    variant, it makes the accessible theme the immutable default and
    stores [null] as default overrides, so that afterwards
    [generateComponentTheme] without a theme key, for a component key
    that is a symbol, drops every override with a key; otherwise it makes the base theme the mutable default and
    stores the overrides it was given. *)
Theorem use_sets_default (w : World) (themeKey a11yKey : string)
    (accessible overrides : value) :
  themeKey ≠ "" → a11yKey ≠ "" →
  (truthy accessible = true →
     eval getDefaultThemeKey (exec (use themeKey a11yKey accessible overrides) w)
       = Some a11yKey
     ∧ Registry.overrides
         (liveRegistry (exec (use themeKey a11yKey accessible overrides) w)) = VNull
     ∧ ∀ K O, is_symbol K = true → has_keys O = true →
         ∃ vars comps,
           eval (mergeWithDefaultThemeVariables None VUndefined)
             (exec (use themeKey a11yKey accessible overrides) w) = Some vars
           ∧ eval (getRegisteredComponents None)
               (exec (use themeKey a11yKey accessible overrides) w) = Some comps
           ∧ eval (generateComponentTheme K None O)
               (exec (use themeKey a11yKey accessible overrides) w)
             = Some (componentStyle (comps !! K) vars))
  ∧ (truthy accessible = false →
       eval getDefaultThemeKey (exec (use themeKey a11yKey accessible overrides) w)
         = Some themeKey
       ∧ Registry.overrides
           (liveRegistry (exec (use themeKey a11yKey accessible overrides) w))
         = overrides
       ∧ ∃ theme,
           Registry.themes
             (liveRegistry (exec (use themeKey a11yKey accessible overrides) w))
           !! themeKey = Some theme
           ∧ Theme.immutable theme = VBool false).
Proof.
  intros Hk Ha. unfold use. split; intros Hacc; rewrite Hacc, exec_discard.
  - destruct (setDefaultTheme_run a11yKey VNull (VBool true) w) as (w' & E & R & _).
    assert (exec (setDefaultTheme a11yKey VNull (VBool true)) w = w') as ->
      by (unfold exec; by rewrite E).
    assert (defaultKey (liveRegistry w') = a11yKey) as Hdk
      by (rewrite R; unfold defaultKey; cbn; by destruct a11yKey).
    rewrite eval_getDefaultThemeKey, Hdk. split_and!; [done|by rewrite R|].
    intros K O _ HO.
    exists (resolved (liveRegistry w') None VUndefined), (bucket (liveRegistry w') None).
    split_and!.
    + by eapply reads_eval; [apply reads_mergeWithDefaultThemeVariables|].
    + by eapply reads_eval; [apply reads_getRegisteredComponents|].
    + eapply reads_eval; [apply reads_generateComponentTheme|].
      cbv beta zeta.
      assert (blocked (liveRegistry w') (Some (effectiveKey (liveRegistry w') None)) O
              = true) as ->; [|done].
      unfold blocked, themeAt, effectiveKey. cbn. rewrite Hdk, HO, R. cbn.
      rewrite lookup_insert_eq. by destruct (Registry.themes (liveRegistry w) !! a11yKey).
  - destruct (setDefaultTheme_run themeKey overrides (VBool false) w)
      as (w' & E & R & _).
    assert (exec (setDefaultTheme themeKey overrides (VBool false)) w = w') as ->
      by (unfold exec; by rewrite E).
    rewrite eval_getDefaultThemeKey, R. cbn. split_and!; [|done|].
    + unfold defaultKey. cbn. by destruct themeKey.
    + eexists. rewrite lookup_insert_eq. split; [done|].
      by destruct (Registry.themes (liveRegistry w) !! themeKey).
Qed.
End generation.

Section edges.
Context `{env : Env}.

(** X24.  On a registry without the default bucket, which only
    [setRegistry] can install, [registerComponentTheme] with a function
    throws, and the registry is what it was. *)
Theorem registerComponentTheme_no_default_bucket (w : World) (K : propkey)
    (fn : FunctionObject) :
  Registry.components (liveRegistry w) !! DEFAULT_THEME_KEY = None →
  eval (registerComponentTheme K (AFunction fn)) w = None
  ∧ eval getRegistry (exec (registerComponentTheme K (AFunction fn)) w)
    = eval getRegistry w
  ∧ diagnostics (exec (registerComponentTheme K (AFunction fn)) w) = diagnostics w.
Proof.
  intros Hd. rewrite !eval_getRegistry.
  unfold eval, exec, registerComponentTheme, bind.
  destruct (reads_getRegistry w) as (w1 & -> & R1 & _ & D1).
  cbv beta iota. rewrite Hd. unfold throw. cbn. by rewrite R1, D1, app_nil_r.
Qed.

(** X25.  [getDefaultThemeKey] never returns the empty string: an empty
    default key and an empty first registered key are passed over, down
    to the reserved constant. *)
Theorem getDefaultThemeKey_not_empty (w : World) :
  ∃ k, eval getDefaultThemeKey w = Some k ∧ k ≠ "".
Proof.
  exists (defaultKey (liveRegistry w)). split.
  - by eapply reads_eval; [apply reads_getDefaultThemeKey|].
  - pose proof (defaultKey_truthy (liveRegistry w)) as H.
    intros Heq. rewrite Heq in H. discriminate.
Qed.
End edges.

(** * The further properties on concrete inputs *)


Lemma perform_keeps_window_witness :
  canUseDOM (Env := nodeEnv) = false
  ∧ window_GLOBAL_THEME_REGISTRY
      (exec (perform (env := nodeEnv) (RegisterTheme baseTheme)) initialWorld)
    = SlotUnset.
Proof.
  split; [reflexivity|].
  exact (perform_keeps_window (env := nodeEnv) (RegisterTheme baseTheme)
           initialWorld eq_refl).
Defined.


Lemma getTheme_missing_witness :
  eval (getRegisteredThemes (env := nodeEnv)) initialWorld = Some ∅
  ∧ eval (getTheme (env := nodeEnv) (Some "nowhere")) initialWorld = Some (VObj ∅).
Proof.
  split; [vm_compute; reflexivity|].
  eapply (getTheme_missing (env := nodeEnv) initialWorld (Some "nowhere") ∅);
    vm_compute; reflexivity.
Defined.

Lemma setDefaultTheme_registered_witness :
  Registry.themes (liveRegistry (env := nodeEnv) baseWorld) !! "base" = Some baseTheme
  ∧ eval (getDefaultThemeKey (env := nodeEnv))
      (exec (setDefaultTheme (env := nodeEnv) "base" green (VBool true)) baseWorld)
    = Some "base".
Proof.
  split; [vm_compute; reflexivity|].
  destruct (setDefaultTheme_registered (env := nodeEnv) baseWorld "base" baseTheme
              green (VBool true)) as (_ & H & _);
    [vm_compute; reflexivity|discriminate|].
  exact H.
Defined.


Lemma registerTheme_keeps_default_witness :
  Registry.registered (liveRegistry (env := nodeEnv) baseWorld) ≠ []
  ∧ eval (getDefaultThemeKey (env := nodeEnv))
      (exec (registerTheme (env := nodeEnv) strictTheme) baseWorld)
    = eval (getDefaultThemeKey (env := nodeEnv)) baseWorld.
Proof.
  assert (Registry.registered (liveRegistry (env := nodeEnv) baseWorld) ≠ []) as H
    by (vm_compute; discriminate).
  split; [exact H|].
  apply (registerTheme_keeps_default (env := nodeEnv) baseWorld strictTheme).
  right. exact H.
Defined.

Lemma registerTheme_first_is_default_witness :
  Registry.registered (liveRegistry (env := nodeEnv) initialWorld) = []
  ∧ eval (getDefaultThemeKey (env := nodeEnv))
      (exec (registerTheme (env := nodeEnv) baseTheme) initialWorld) = Some "base".
Proof.
  split; [reflexivity|].
  eapply (registerTheme_first_is_default (env := nodeEnv) initialWorld baseTheme
            "base"); [reflexivity..|discriminate].
Defined.

Lemma overrideThemeVariables_merges_witness :
  eval (getRegisteredTheme (env := nodeEnv) (Some "base") (Some Theme.empty))
    scenarioWorld = Some (Some baseTheme)
  ∧ truthy (Theme.immutable baseTheme) = false
  ∧ eval (overrideThemeVariables (env := nodeEnv) (Some "base") green) scenarioWorld
    = Some (mergeDeep_spec blue green).
Proof.
  split_and!; [vm_compute; reflexivity|reflexivity|].
  eapply (overrideThemeVariables_merges (env := nodeEnv) scenarioWorld (Some "base")
            green baseTheme); [vm_compute; reflexivity|by right].
Defined.

Lemma mergeWithDefaultThemeVariables_ignores_overrides_witness :
  Registry.overrides (liveRegistry (env := nodeEnv) scenarioWorld) = VObj ∅
  ∧ Registry.overrides
      (liveRegistry (env := nodeEnv)
         (exec (setDefaultTheme (env := nodeEnv) "base" green (VBool false))
            scenarioWorld)) = green
  ∧ eval (mergeWithDefaultThemeVariables (env := nodeEnv) (Some "strict") VUndefined)
      scenarioWorld
    = eval (mergeWithDefaultThemeVariables (env := nodeEnv) (Some "strict") VUndefined)
        (exec (setDefaultTheme (env := nodeEnv) "base" green (VBool false))
           scenarioWorld).
Proof.
  split_and!; [vm_compute; reflexivity..|].
  apply (mergeWithDefaultThemeVariables_ignores_overrides (env := nodeEnv));
    vm_compute; reflexivity.
Defined.

Lemma mergeWithDefaultThemeVariables_default_immutable_witness :
  eval (getDefaultThemeKey (env := nodeEnv)) strictDefaultWorld = Some "strict"
  ∧ eval (overrideThemeVariables (env := nodeEnv) (Some "base") green)
      strictDefaultWorld = Some green
  ∧ eval (mergeWithDefaultThemeVariables (env := nodeEnv) (Some "base") green)
      strictDefaultWorld = Some red.
Proof.
  split_and!; [vm_compute; reflexivity..|].
  eapply (mergeWithDefaultThemeVariables_default_immutable (env := nodeEnv)
            strictDefaultWorld (Some "base") green green "strict" strictTheme);
    vm_compute; reflexivity.
Defined.

Lemma setDefaultTheme_then_merge_witness :
  Registry.themes (liveRegistry (env := nodeEnv) baseWorld) !! "base" = Some baseTheme
  ∧ eval (mergeWithDefaultThemeVariables (env := nodeEnv) None VUndefined)
      (exec (setDefaultTheme (env := nodeEnv) "base" green (VBool false)) baseWorld)
    = Some (mergeDeep_spec blue (mergeDeep_spec green (VObj ∅))).
Proof.
  split; [vm_compute; reflexivity|].
  eapply (setDefaultTheme_then_merge (env := nodeEnv) baseWorld "base" baseTheme
            green (VBool false) VUndefined);
    [vm_compute; reflexivity|discriminate|reflexivity].
Defined.

Lemma registerComponentTheme_other_components_witness :
  KSym 1 ≠ KSym 0
  ∧ eval (generateComponentTheme (env := nodeEnv) (KSym 1) None green)
      (exec (registerComponentTheme (env := nodeEnv) (KSym 0) (AFunction echoFn))
         scenarioWorld)
    = eval (generateComponentTheme (env := nodeEnv) (KSym 1) None green) scenarioWorld.
Proof.
  split; [discriminate|].
  eapply (registerComponentTheme_other_components (env := nodeEnv) scenarioWorld
            (KSym 0) (KSym 1) (AFunction echoFn) None green).
  discriminate.
Defined.


Lemma registerComponentTheme_value_property_witness :
  properties taggedFn !! "version" = Some (PValue (VNum 2))
  ∧ inherited "version" = false
  ∧ properties taggedFn !! "hasOwnProperty" = None
  ∧ Registry.components (liveRegistry (env := nodeEnv) initialWorld)
      !! "hasOwnProperty" = None
  ∧ eval (generateComponentTheme (env := nodeEnv) (KSym 0) (Some "version") VUndefined)
      (exec (registerComponentTheme (env := nodeEnv) (KSym 0) (AFunction taggedFn))
         initialWorld)
    = Some (VObj {[ "size" := VNum 1 ]}).
Proof.
  split_and!; [vm_compute; reflexivity..|].
  destruct (registerComponentTheme_value_property (env := nodeEnv) initialWorld
              (KSym 0) taggedFn "version" (VNum 2) ∅) as (_ & vars & _ & H);
    [vm_compute; reflexivity..|].
  exact (H _ eq_refl).
Defined.

Lemma generateTheme_generateComponentTheme_witness :
  eval (generateTheme (env := nodeEnv) None VUndefined) echoWorld
    = Some {[ KSym 0 := VObj ∅ ]}
  ∧ eval (generateComponentTheme (env := nodeEnv) (KSym 0) None VUndefined) echoWorld
    = Some (VObj ∅).
Proof.
  split; [vm_compute; reflexivity|].
  eapply (generateTheme_generateComponentTheme (env := nodeEnv) echoWorld (KSym 0)
            None {[ KSym 0 := VObj ∅ ]} (VObj ∅)); vm_compute; reflexivity.
Defined.

Lemma use_sets_default_witness :
  truthy (VBool true) = true
  ∧ is_symbol (KSym 0) = true
  ∧ has_keys green = true
  ∧ eval (getDefaultThemeKey (env := nodeEnv))
      (exec (use (env := nodeEnv) "base" "strict" (VBool true) VUndefined)
         echoScenarioWorld) = Some "strict"
  ∧ eval (generateComponentTheme (env := nodeEnv) (KSym 0) None green)
      (exec (use (env := nodeEnv) "base" "strict" (VBool true) VUndefined)
         echoScenarioWorld) = Some red.
Proof.
  split_and!; [reflexivity..| |];
    destruct (use_sets_default (env := nodeEnv) echoScenarioWorld "base" "strict"
                (VBool true) VUndefined) as (H & _); try discriminate;
    destruct (H eq_refl) as (Hdk & _ & HK); [exact Hdk|].
  destruct (HK (KSym 0) green eq_refl eq_refl) as (vars & comps & Hv & Hc & ->).
  vm_compute in Hv, Hc. injection Hv as <-. injection Hc as <-.
  vm_compute. reflexivity.
Defined.


Lemma clearRegistry_forgets_witness :
  is_symbol (KSym 0) = true
  ∧ eval (generateComponentTheme (env := nodeEnv) (KSym 0) None green)
      (exec (clearRegistry (env := nodeEnv)) echoScenarioWorld) = Some green.
Proof.
  split; [reflexivity|].
  destruct (clearRegistry_forgets (env := nodeEnv) echoScenarioWorld (KSym 0) None
              green eq_refl) as (_ & _ & _ & _ & H).
  exact H.
Defined.

Lemma registerComponentTheme_no_default_bucket_witness :
  Registry.components (liveRegistry (env := nodeEnv) bareWorld) !! DEFAULT_THEME_KEY
    = None
  ∧ eval (registerComponentTheme (env := nodeEnv) (KSym 0) (AFunction echoFn))
      bareWorld = None.
Proof.
  split; [vm_compute; reflexivity|].
  eapply (registerComponentTheme_no_default_bucket (env := nodeEnv) bareWorld
            (KSym 0) echoFn).
  vm_compute. reflexivity.
Defined.
